(** * AI Candidate Sourcing Engine: the presentation layer and the sourcing core

    The TypeScript front end (api.ts, JobForm.tsx, ResultsDisplay.tsx,
    CandidateCard.tsx, types.ts) is embedded function by function.  The Python
    core (search.py, score.py, message.py, main.py) is described by the
    specification and by the project write-up only; its parts are modelled
    from those descriptions and marked as such.

    A finite JavaScript number is held as the rational it denotes ([Q]):
    every finite double is one.  Comparisons, and the sign of a difference
    in a sort comparator, are the same on doubles and on the rationals they
    denote.  Where the code computes with numbers (CandidateCard), the
    arithmetic is binary64 arithmetic with its rounding written out
    (module [Float64]).  Objects used as dictionaries are
    [gmap string _]. *)

From Stdlib Require Import Ascii QArith Qabs Qround Qpower Lqa.
From Corelib Require Import PrimFloat SpecFloat FloatOps.
From Stdlib Require Import Uint63.
From stdpp Require Import base gmap strings list pretty sorting.

Local Open Scope Q_scope.

(** ** JavaScript helpers *)

Module JS.

(** Truthiness of a value of a known type: [""] and [0] are falsy, every
    object and every array is truthy. *)
Class Truthy (A : Type) := truthy : A → bool.

#[global] Instance truthy_string : Truthy string :=
  λ s, match s with EmptyString => false | _ => true end.
#[global] Instance truthy_number : Truthy Q := λ q, negb (Qeq_bool q 0).
#[global] Instance truthy_object {V} : Truthy (gmap string V) := λ _, true.
#[global] Instance truthy_array {A} : Truthy (list A) := λ _, true.

(** [a || b] where both operands are properties that may be missing
    ([None] stands for [undefined] and for [null]). *)
Definition or_prop {A} `{Truthy A} (a b : option A) : option A :=
  match a with
  | Some v => if truthy v then Some v else b
  | None => b
  end.

(** [a || d] where [d] is a literal. *)
Definition or_lit {A} `{Truthy A} (a : option A) (d : A) : A :=
  match a with
  | Some v => if truthy v then v else d
  | None => d
  end.

(** [Math.round]: the nearest integer, halves going up. *)
Definition Math_round (x : Q) : Z := Qfloor (x + (1 # 2)).

(** [Number.prototype.toString] on an array index. *)
Definition toString (idx : nat) : string := pretty idx.

(** [encodeURIComponent], on a string read as its UTF-8 bytes: the
    unreserved characters stay, every other byte becomes [%XX]. *)
Definition unreserved (c : ascii) : bool :=
  let n := nat_of_ascii c in
  ((65 <=? n)%nat && (n <=? 90)%nat) || ((97 <=? n)%nat && (n <=? 122)%nat)
  || ((48 <=? n)%nat && (n <=? 57)%nat)
  || bool_decide (c ∈ ["-"; "_"; "."; "!"; "~"; "*"; "'"; "("; ")"]%char).

Definition hex_upper (n : nat) : ascii :=
  if (n <? 10)%nat then ascii_of_nat (48 + n) else ascii_of_nat (55 + n).

Fixpoint encodeURIComponent (s : string) : string :=
  match s with
  | EmptyString => EmptyString
  | String c rest =>
      if unreserved c then String c (encodeURIComponent rest)
      else
        let n := nat_of_ascii c in
        String "%" (String (hex_upper (n / 16)) (String (hex_upper (n mod 16))
               (encodeURIComponent rest)))
  end.

End JS.

(** ** types.ts *)

Module Types.

(** [interface Candidate].  The interface lists four breakdown keys
    (skills, experience, education, culture); at run time the object is
    whatever the back end sent, and CandidateCard walks it with
    [Object.entries], so the breakdown is a dictionary of numbers. *)
Record Candidate := {
  id : string;
  name : string;
  title : string;
  linkedinUrl : string;
  fitScore : Q;
  scoreBreakdown : gmap string Q;
  outreachMessage : string;
  avatar : string
}.

End Types.

(** ** api.ts *)

Module Api.

(** One element of [res.data.top_candidates]: a JSON object of which every
    property may be missing or null. *)
Record BackendCandidate := {
  name : option string;
  headline : option string;
  linkedin_url : option string;
  url : option string;
  fit_score : option Q;
  score_breakdown : option (gmap string Q);
  outreach_message : option string;
  message : option string
}.

Record ResponseData := { top_candidates : option (list BackendCandidate) }.

Definition toCandidate (idx : nat) (c : BackendCandidate) : Types.Candidate :=
  {| Types.id := JS.toString idx;
     Types.name := JS.or_lit (name c) "";
     Types.title := JS.or_lit (headline c) "";
     Types.linkedinUrl := JS.or_lit (JS.or_prop (linkedin_url c) (url c)) "";
     Types.fitScore := JS.or_lit (fit_score c) 0;
     Types.scoreBreakdown := JS.or_lit (score_breakdown c) ∅;
     Types.outreachMessage :=
       JS.or_lit (JS.or_prop (outreach_message c) (message c)) "";
     Types.avatar :=
       "https://api.dicebear.com/7.x/identicon/svg?seed="
       +:+ JS.encodeURIComponent (JS.or_lit (name c) "candidate") |}.

(** What [await axios.post(...)] does: it throws (the promise is
    rejected, with the [detail] of the error body when there is one), or
    it yields a response whose [data] is the parsed JSON body. *)
Inductive AxiosResult :=
| Rejected (detail : option string)
| Resolved (data : ResponseData).

(** [fetchCandidates]: the rejection is not caught here, the answer is
    mapped by [(res.data.top_candidates || []).map((c, idx) => ...)]. *)
Definition fetchCandidates (res : AxiosResult)
  : option string + list Types.Candidate :=
  match res with
  | Rejected detail => inl detail
  | Resolved data => inr (imap toCandidate (JS.or_lit (top_candidates data) []))
  end.

End Api.

(** ** JobForm.tsx *)

Module JobForm.

(** The textarea value is a sequence of UTF-16 code units: [length] counts
    them and [trim] looks at them one by one. *)
Definition code_unit := N.
Definition text := list code_unit.

(** ECMAScript WhiteSpace and LineTerminator, the characters [trim]
    removes. *)
Definition is_white_space (c : code_unit) : bool :=
  bool_decide (c ∈ [0x09; 0x0A; 0x0B; 0x0C; 0x0D; 0x20; 0xA0; 0x1680;
                    0x2028; 0x2029; 0x202F; 0x205F; 0x3000; 0xFEFF]%N)
  || ((0x2000 <=? c)%N && (c <=? 0x200A)%N).

Fixpoint trimStart (s : text) : text :=
  match s with
  | c :: rest => if is_white_space c then trimStart rest else s
  | [] => []
  end.

Definition trimEnd (s : text) : text := rev (trimStart (rev s)).

Definition trim (s : text) : text := trimEnd (trimStart s).

(** The component state ([useState]) and what an event handler leaves
    behind: the new state and the calls it made to the [onSubmit] prop. *)
Record State := {
  jobDescription : text;
  error : string;
  charCount : nat
}.

Definition setError (msg : string) (st : State) : State :=
  {| jobDescription := jobDescription st; error := msg;
     charCount := charCount st |}.

Definition handleChange (value : text) (st : State) : State :=
  {| jobDescription := value;
     error := if JS.truthy (error st) then "" else error st;
     charCount := length value |}.

Definition handleSubmit (st : State) : State * list text :=
  if (length (trim (jobDescription st)) <? 100)%nat then
    (setError "Job description must be at least 100 characters long." st, [])
  else if (2000 <? length (trim (jobDescription st)))%nat then
    (setError "Job description must not exceed 2000 characters." st, [])
  else (st, [trim (jobDescription st)]).

(** A text that does not start with white space. *)
Definition clean_head (s : text) : Prop :=
  ∀ c, head s = Some c → is_white_space c = false.

(** [useState('')], [useState('')], [useState(0)]. *)
Definition initial : State :=
  {| jobDescription := []; error := ""; charCount := 0 |}.

(** The [disabled] attribute of the submit button:
    [isLoading || jobDescription.trim().length < 100]. *)
Definition submitDisabled (isLoading : bool) (st : State) : bool :=
  isLoading || (length (trim (jobDescription st)) <? 100)%nat.

(** What every state of the form satisfies, and every text handed to
    [onSubmit]. *)
Definition counted (st : State) : Prop :=
  charCount st = length (jobDescription st).

Definition acceptable (jd : text) : Prop :=
  (100 ≤ length jd ≤ 2000)%nat ∧ trim jd = jd.

(** The error on screen tells the defect of the text as it stands. *)
Definition error_matches (st : State) : Prop :=
  error st = ""
  ∨ (error st = "Job description must be at least 100 characters long."
     ∧ (length (trim (jobDescription st)) < 100)%nat)
  ∨ (error st = "Job description must not exceed 2000 characters."
     ∧ (2000 < length (trim (jobDescription st)))%nat).

(** The events the form reacts to, and the component run over a sequence of
    them: the state it ends in and the calls made to [onSubmit], in
    order. *)
Inductive Event :=
| Change (value : text)
| Submit.

Definition dispatch (ev : Event) (st : State) : State * list text :=
  match ev with
  | Change value => (handleChange value st, [])
  | Submit => handleSubmit st
  end.

Fixpoint run (events : list Event) (st : State) : State * list text :=
  match events with
  | [] => (st, [])
  | ev :: rest =>
      let '(st1, calls1) := dispatch ev st in
      let '(st2, calls2) := run rest st1 in
      (st2, calls1 ++ calls2)
  end.

End JobForm.

(** ** ResultsDisplay.tsx *)

Module ResultsDisplay.

Inductive SortBy := score | name.

(** [Array.prototype.sort] with a comparator: stable (ECMAScript 2019), an
    element stays in front of a later one unless the comparator says it is
    greater.  Written as the insertion sort that keeps this order. *)
Section Array_sort.
Context {A : Type} (comparefn : A → A → Q).

Fixpoint insert (x : A) (l : list A) : list A :=
  match l with
  | [] => [x]
  | y :: rest =>
      if Qle_bool (comparefn x y) 0 then x :: y :: rest
      else y :: insert x rest
  end.

Fixpoint Array_sort (l : list A) : list A :=
  match l with
  | [] => []
  | x :: rest => insert x (Array_sort rest)
  end.
End Array_sort.

Section Component.
(** [String.prototype.localeCompare] depends on the host's collation; it
    is a parameter of the component. *)
Variable localeCompare : string → string → Q.

Definition comparator (sortBy : SortBy) (a b : Types.Candidate) : Q :=
  match sortBy with
  | score => Types.fitScore b - Types.fitScore a
  | name => localeCompare (Types.name a) (Types.name b)
  end.

Definition filteredAndSortedCandidates
    (candidates : list Types.Candidate) (sortBy : SortBy)
    (filterMinScore : Q) : list Types.Candidate :=
  Array_sort (comparator sortBy)
    (List.filter
       (λ candidate, Qle_bool filterMinScore (Types.fitScore candidate))
       candidates).
End Component.

(** The options of the Min Score select. *)
Definition filterMinScore_options : list Q := [0; 70; 80; 90].

End ResultsDisplay.

(** ** IEEE 754 binary64 *)

Module Float64.

(** The arithmetic of JavaScript numbers: a result is the exact result
    rounded to the nearest binary64 value, ties going to the even
    significand, with gradual underflow and with overflow to infinity.  Zero
    has no sign here: no comparison and no rendering in this program tells
    -0 from 0. *)
Definition pow2 (k : Z) : Q := 2 ^ k.

(** The nearest integer, a tie going to the even one. *)
Definition rne (x : Q) : Z :=
  let f := Qfloor x in
  match Qcompare (x - inject_Z f) (1 # 2) with
  | Lt => f
  | Gt => (f + 1)%Z
  | Eq => if Z.even f then f else (f + 1)%Z
  end.

(** The binade of a positive rational: [2^(ilog2 q) <= q < 2^(ilog2 q + 1)]. *)
Definition ilog2 (q : Q) : Z :=
  let e := (Z.log2 (Qnum q) - Z.log2 (Zpos (Qden q)))%Z in
  if Qle_bool (pow2 e) q then e else (e - 1)%Z.

(** The exponent of the unit in the last place: 53 bits of significand,
    subnormal below [2^-1022]. *)
Definition exponent (q : Q) : Z := Z.max (ilog2 q - 52) (-1074).

(** Rounding to the multiples of [2^k]. *)
Definition grid (k : Z) (q : Q) : Q := inject_Z (rne (q / pow2 k)) * pow2 k.

(** The nearest binary64 value of a positive rational, the exponent not
    yet bounded above. *)
Definition nearest (q : Q) : Q := grid (exponent q) q.

Inductive number :=
| Fin (q : Q)
| PInf
| NInf
| NaN.

Definition round (q : Q) : number :=
  match Qcompare q 0 with
  | Eq => Fin 0
  | Gt => if Qle_bool (pow2 1024) (nearest q) then PInf else Fin (nearest q)
  | Lt => if Qle_bool (pow2 1024) (nearest (- q)) then NInf
          else Fin (- nearest (- q))
  end.

(** [x <= y], false as soon as one side is NaN. *)
Definition leb (x y : number) : bool :=
  match x, y with
  | NaN, _ | _, NaN => false
  | NInf, _ | _, PInf => true
  | Fin a, Fin b => Qle_bool a b
  | _, _ => false
  end.

Definition le (x y : number) : Prop := leb x y = true.

Definition eqb (x y : number) : bool :=
  match x, y with
  | Fin a, Fin b => Qeq_bool a b
  | PInf, PInf | NInf, NInf | NaN, NaN => true
  | _, _ => false
  end.

Definition negative (x : number) : bool :=
  match x with
  | Fin q => negb (Qle_bool 0 q)
  | NInf => true
  | _ => false
  end.

Definition infinity (neg : bool) : number := if neg then NInf else PInf.

(** [x * y] *)
Definition mul (x y : number) : number :=
  match x, y with
  | NaN, _ | _, NaN => NaN
  | Fin a, Fin b => round (a * b)
  | Fin a, _ =>
      if Qeq_bool a 0 then NaN else infinity (xorb (negative x) (negative y))
  | _, Fin b =>
      if Qeq_bool b 0 then NaN else infinity (xorb (negative x) (negative y))
  | _, _ => infinity (xorb (negative x) (negative y))
  end.

(** [x / y] *)
Definition div (x y : number) : number :=
  match x, y with
  | NaN, _ | _, NaN => NaN
  | Fin a, Fin b =>
      if Qeq_bool b 0 then
        if Qeq_bool a 0 then NaN else infinity (negative x)
      else round (a / b)
  | Fin _, _ => Fin 0
  | _, Fin _ => infinity (xorb (negative x) (negative y))
  | _, _ => NaN
  end.

(** [Math.round(x)]: on a finite number the nearest integer, halves going
    up, which is a binary64 value whenever [x] is; infinities and NaN are
    returned as they are. *)
Definition Math_round (x : number) : number :=
  match x with
  | Fin q => Fin (inject_Z (JS.Math_round q))
  | _ => x
  end.

(** A rational that is a binary64 value. *)
Definition is_double (q : Q) : Prop := ∃ r, round q = Fin r ∧ r == q.

(** The binary64 values next to a rational [T] that lies inside the binade
    [2^e, 2^(e+1)): the greatest one below [T] and the least one that is at
    least [T]. *)
Definition below (e : Z) (T : Q) : Q :=
  inject_Z (Qceiling (T / pow2 (e - 52)) - 1) * pow2 (e - 52).

Definition above (e : Z) (T : Q) : Q :=
  inject_Z (Qceiling (T / pow2 (e - 52))) * pow2 (e - 52).

End Float64.

(** ** CandidateCard.tsx *)

Module CandidateCard.

Import Types.

Definition getScoreColor (score : Float64.number) : string :=
  if Float64.leb (Float64.Fin 90) score then "text-green-600 bg-green-100"
  else if Float64.leb (Float64.Fin 80) score then "text-blue-600 bg-blue-100"
  else if Float64.leb (Float64.Fin 70) score
       then "text-yellow-600 bg-yellow-100"
  else "text-red-600 bg-red-100".

Definition getScoreBarColor (score : Float64.number) : string :=
  if Float64.leb (Float64.Fin 90) score then "bg-green-500"
  else if Float64.leb (Float64.Fin 80) score then "bg-blue-500"
  else if Float64.leb (Float64.Fin 70) score then "bg-yellow-500"
  else "bg-red-500".

(** [Math.round((v * 10) * 100) / 100], every operation a binary64 one. *)
Definition display (v : Q) : Float64.number :=
  Float64.div
    (Float64.Math_round
       (Float64.mul (Float64.mul (Float64.Fin v) (Float64.Fin 10))
          (Float64.Fin 100)))
    (Float64.Fin 100).

Definition fitScoreDisplay (candidate : Candidate) : Float64.number :=
  display (fitScore candidate).

(** [Object.fromEntries(Object.entries(b).map(([k, v]) => [k, ...]))]:
    the same keys, every value transformed. *)
Definition scoreBreakdownDisplay (candidate : Candidate)
  : gmap string Float64.number :=
  display <$> scoreBreakdown candidate.

(** The fit score written 7.0005: the binary64 value nearest to it. *)
Definition score_7_0005 : Q := 7881862297851789 # 1125899906842624.

(** Two decimal places in exact arithmetic: the nearest hundredth, a half
    going up. *)
Definition two_decimals (x : Q) : Q :=
  inject_Z (JS.Math_round (x * 100)) / 100.

End CandidateCard.

(** ** The same computation on the kernel's binary64 numbers *)

Module Kernel64.

(** The number a kernel float denotes. *)
Definition to_number (x : float) : Float64.number :=
  match Prim2SF x with
  | S754_zero _ => Float64.Fin 0
  | S754_infinity false => Float64.PInf
  | S754_infinity true => Float64.NInf
  | S754_nan => Float64.NaN
  | S754_finite s m e =>
      Float64.Fin ((if s then -1 else 1) * inject_Z (Zpos m) * Float64.pow2 e)
  end.

Definition of_Z (z : Z) : float :=
  if (0 <=? z)%Z then PrimFloat.of_uint63 (Uint63.of_Z z)
  else PrimFloat.opp (PrimFloat.of_uint63 (Uint63.of_Z (- z))).

(** [Math.round]: a float of magnitude [2^52] or more is an integer
    already. *)
Definition Math_round (x : float) : float :=
  match to_number x with
  | Float64.Fin q =>
      if Qle_bool (Float64.pow2 52) (Qabs q) then x
      else of_Z (JS.Math_round q)
  | _ => x
  end.

(** [Math.round((v * 10) * 100) / 100] *)
Definition display (v : float) : float :=
  PrimFloat.div (Math_round (PrimFloat.mul (PrimFloat.mul v 10) 100)) 100.

(** Whether the two computations agree on a float. *)
Definition agrees (v : float) : bool :=
  match to_number v with
  | Float64.Fin q => Float64.eqb (to_number (display v)) (CandidateCard.display q)
  | _ => false
  end.

Definition mul_agrees (x y : float) : bool :=
  Float64.eqb (to_number (PrimFloat.mul x y))
    (Float64.mul (to_number x) (to_number y)).

Definition div_agrees (x y : float) : bool :=
  Float64.eqb (to_number (PrimFloat.div x y))
    (Float64.div (to_number x) (to_number y)).

End Kernel64.

(** ** App.tsx *)

Module App.

Record State := {
  showResults : bool;
  candidates : list Types.Candidate;
  isLoading : bool;
  error : option string
}.

(** [handleJobSubmit], from the click to the state once the request has
    settled: the loading state is entered, the request is awaited, and
    either the candidates are shown or the error is.  Reached only
    through JobForm's [onSubmit]. *)
Definition handleJobSubmit (res : Api.AxiosResult) (st : State) : State :=
  match Api.fetchCandidates res with
  | inr realCandidates =>
      {| showResults := true; candidates := realCandidates;
         isLoading := false; error := None |}
  | inl detail =>
      {| showResults := false; candidates := [];
         isLoading := false;
         error := Some (JS.or_lit detail "Something went wrong.") |}
  end.

Definition handleBackToForm (st : State) : State :=
  {| showResults := false; candidates := []; isLoading := isLoading st;
     error := None |}.

(** The four [useState] initial values. *)
Definition initial : State :=
  {| showResults := false; candidates := []; isLoading := false;
     error := None |}.

(** What [handleJobSubmit] sets before it awaits the request. *)
Definition pending : State :=
  {| showResults := false; candidates := []; isLoading := true;
     error := None |}.

(** What the render shows: JobForm returns null when [showResults];
    ResultsDisplay is mounted under [showResults || isLoading]; the error
    banner under [error &&]. *)
Definition showsForm (st : State) : bool := negb (showResults st).

Definition showsResults (st : State) : bool := showResults st || isLoading st.

Definition showsError (st : State) : bool :=
  match error st with
  | Some e => JS.truthy e
  | None => false
  end.

(** What the user can do to the app, a submit being followed to the end of
    its request. *)
Inductive Action :=
| SubmitJob (res : Api.AxiosResult)
| BackToForm.

Definition act (a : Action) (st : State) : State :=
  match a with
  | SubmitJob res => handleJobSubmit res st
  | BackToForm => handleBackToForm st
  end.

Definition run (actions : list Action) (st : State) : State :=
  foldl (λ st a, act a st) st actions.

(** What holds of the state whenever no request is in flight. *)
Definition settled (st : State) : Prop :=
  isLoading st = false
  ∧ (showResults st = true → error st = None)
  ∧ (showResults st = false → candidates st = [])
  ∧ (∀ e, error st = Some e → e ≠ "").

End App.

(** ** The sourcing core *)

(** *** Data model *)

Module Model.

(** Modelled from the spec: section 3, the entities the core passes
    around; the Python classes that hold them are not among the sources. *)
Record CandidateProfile := {
  profile_url : string;
  display_name : string;
  headline : string;
  raw_text : string;
  source : nat
}.

(** Modelled from the spec: section 3, RankedResult, with the mark of
    section 7 on a result that fell back to defaults. *)
Record RankedResult := {
  candidate : CandidateProfile;
  fit_score : Q;
  breakdown : gmap string Q;
  message : string;
  degraded : bool
}.

End Model.

(** *** Fit Scorer *)

Module Scorer.

(** Modelled from the spec: score.py (CandidateScorer) is not among the
    sources.  Section 3 gives the six criteria and their weights, section
    4.3 the contract: the reply of the inference back end is parsed, and
    when parsing fails or one of the six keys is missing, non-numeric or
    out of [0,10] the whole breakdown is replaced by the neutral one (5
    for every criterion) and the result is marked as a fallback. *)
Definition WEIGHTS : list (string * Q) :=
  [("education", 0.20); ("career_trajectory", 0.20);
   ("experience_match", 0.25); ("company_relevance", 0.15);
   ("location_match", 0.10); ("tenure", 0.10)].

Definition criteria : list string := WEIGHTS.*1.

(** A value of the JSON object found in the reply. *)
Inductive JsonValue :=
| JNumber (q : Q)
| JOther.

(** What one scoring call gets from the inference back end, retries
    included: nothing, text holding no JSON object, or an object. *)
Inductive Inference :=
| InferenceFailed
| Malformed
| Parsed (obj : gmap string JsonValue).

Definition in_range (q : Q) : bool := Qle_bool 0 q && Qle_bool q 10.

Definition read_criterion (obj : gmap string JsonValue) (k : string)
  : option Q :=
  match obj !! k with
  | Some (JNumber q) => if in_range q then Some q else None
  | _ => None
  end.

Definition parse_breakdown (obj : gmap string JsonValue)
  : option (gmap string Q) :=
  list_to_map <$> mapM (λ k, pair k <$> read_criterion obj k) criteria.

Definition fallback_breakdown : gmap string Q :=
  list_to_map ((λ k, (k, 5)) <$> criteria).

Definition criterion (breakdown : gmap string Q) (k : string) : Q :=
  default 0 (breakdown !! k).

(** Modelled from the spec: section 3, FitScore is the weighted sum of the
    six criteria; score.py is not among the sources. *)
Definition fit_score (breakdown : gmap string Q) : Q :=
  foldr (λ kw acc, criterion breakdown kw.1 * kw.2 + acc) 0 WEIGHTS.

(** The scenario of section 8. *)
Definition scenario_breakdown : gmap string Q :=
  list_to_map
    [("education", 8); ("career_trajectory", 7); ("experience_match", 9);
     ("company_relevance", 6); ("location_match", 5); ("tenure", 7)].

Record ScoreResult := {
  FitScore : Q;
  ScoreBreakdown : gmap string Q;
  is_fallback : bool
}.

Definition with_breakdown (breakdown : gmap string Q) (fb : bool)
  : ScoreResult :=
  {| FitScore := fit_score breakdown; ScoreBreakdown := breakdown;
     is_fallback := fb |}.

(** Modelled from the spec: section 4.3, whole-breakdown fallback; score.py
    is not among the sources. *)
Definition evaluate (reply : Inference) : ScoreResult :=
  match reply with
  | Parsed obj =>
      match parse_breakdown obj with
      | Some breakdown => with_breakdown breakdown false
      | None => with_breakdown fallback_breakdown true
      end
  | _ => with_breakdown fallback_breakdown true
  end.

(** A breakdown as the data model wants it: exactly the six criteria,
    each value in [0,10]. *)
Definition well_shaped (breakdown : gmap string Q) : Prop :=
  dom breakdown = list_to_set criteria
  ∧ ∀ k v, breakdown !! k = Some v → 0 <= v <= 10.

Section Backend.
(** The inference back end, an external collaborator. *)
Variable infer : string → Model.CandidateProfile → Inference.

(** Modelled from the spec: section 4.3, the contract
    [score(job_description, candidate)]. *)
Definition score (job_description : string)
    (candidate : Model.CandidateProfile) : ScoreResult :=
  evaluate (infer job_description candidate).
End Backend.

End Scorer.

(** *** Profile Discoverer *)

Module Discoverer.

(** Modelled from the spec: search.py (LinkedInSearcher) is not among the
    sources.  Section 4.2: the strategies are tried in priority order, each
    removes duplicate profile URLs from what it found, the first one that
    found at least one profile ends the search, profiles beyond
    [max_results] are dropped from the end; finding nothing is an empty
    result, and [DiscoveryUnavailable] is signalled only when every
    strategy failed outright. *)
Import Model.

(** What one strategy does when it is attempted. *)
Inductive StrategyOutcome :=
| Failed
| Found (profiles : list CandidateProfile).

Inductive DiscoveryError := DiscoveryUnavailable.

Fixpoint dedup_by_url (seen : gset string) (ps : list CandidateProfile)
  : list CandidateProfile :=
  match ps with
  | [] => []
  | p :: rest =>
      if bool_decide (profile_url p ∈ seen) then dedup_by_url seen rest
      else p :: dedup_by_url ({[profile_url p]} ∪ seen) rest
  end.

(** Modelled from the spec: section 4.2, the walk along the chain;
    search.py is not among the sources.  [answered] records whether a
    strategy tried so far came back without failing. *)
Fixpoint discover_from (chain : list StrategyOutcome) (answered : bool)
    (max_results : nat) : DiscoveryError + list CandidateProfile :=
  match chain with
  | [] => if answered then inr [] else inl DiscoveryUnavailable
  | Failed :: rest => discover_from rest answered max_results
  | Found profiles :: rest =>
      match dedup_by_url ∅ profiles with
      | [] => discover_from rest true max_results
      | found => inr (take max_results found)
      end
  end.

(** Modelled from the spec: section 4.2, the contract
    [discover(job_description, max_results)] over the chain structured
    search API, alternate search API, scraping. *)
Definition discover (search_api alternate_api scraping : StrategyOutcome)
    (max_results : nat) : DiscoveryError + list CandidateProfile :=
  discover_from [search_api; alternate_api; scraping] false max_results.

End Discoverer.

(** *** Cache Store *)

Module MD5.

(** RFC 1321 on 32-bit words held in [N], the wrap-around written out. *)
Local Open Scope N_scope.

Definition wrap (x : N) : N := x mod 2 ^ 32.
Definition add32 (x y : N) : N := wrap (x + y).
Definition not32 (x : N) : N := N.lxor x 0xFFFFFFFF.
Definition rotl32 (x c : N) : N :=
  wrap (N.lor (N.shiftl x c) (N.shiftr x (32 - c))).

Definition K : list N :=
  [ 0xd76aa478; 0xe8c7b756; 0x242070db; 0xc1bdceee;
    0xf57c0faf; 0x4787c62a; 0xa8304613; 0xfd469501;
    0x698098d8; 0x8b44f7af; 0xffff5bb1; 0x895cd7be;
    0x6b901122; 0xfd987193; 0xa679438e; 0x49b40821;
    0xf61e2562; 0xc040b340; 0x265e5a51; 0xe9b6c7aa;
    0xd62f105d; 0x02441453; 0xd8a1e681; 0xe7d3fbc8;
    0x21e1cde6; 0xc33707d6; 0xf4d50d87; 0x455a14ed;
    0xa9e3e905; 0xfcefa3f8; 0x676f02d9; 0x8d2a4c8a;
    0xfffa3942; 0x8771f681; 0x6d9d6122; 0xfde5380c;
    0xa4beea44; 0x4bdecfa9; 0xf6bb4b60; 0xbebfbc70;
    0x289b7ec6; 0xeaa127fa; 0xd4ef3085; 0x04881d05;
    0xd9d4d039; 0xe6db99e5; 0x1fa27cf8; 0xc4ac5665;
    0xf4292244; 0x432aff97; 0xab9423a7; 0xfc93a039;
    0x655b59c3; 0x8f0ccc92; 0xffeff47d; 0x85845dd1;
    0x6fa87e4f; 0xfe2ce6e0; 0xa3014314; 0x4e0811a1;
    0xf7537e82; 0xbd3af235; 0x2ad7d2bb; 0xeb86d391 ].

Definition S : list N :=
  [ 7; 12; 17; 22; 7; 12; 17; 22; 7; 12; 17; 22; 7; 12; 17; 22;
    5; 9; 14; 20; 5; 9; 14; 20; 5; 9; 14; 20; 5; 9; 14; 20;
    4; 11; 16; 23; 4; 11; 16; 23; 4; 11; 16; 23; 4; 11; 16; 23;
    6; 10; 15; 21; 6; 10; 15; 21; 6; 10; 15; 21; 6; 10; 15; 21 ].

Definition state : Type := N * N * N * N.

Definition initial : state :=
  (0x67452301, 0xefcdab89, 0x98badcfe, 0x10325476).

Definition step (M : list N) (st : state) (i : nat) : state :=
  let '(A, B, C, D) := st in
  let '(F, g) :=
    if (i <? 16)%nat then
      (N.lor (N.land B C) (N.land (not32 B) D), i)
    else if (i <? 32)%nat then
      (N.lor (N.land D B) (N.land (not32 D) C), ((5 * i + 1) mod 16)%nat)
    else if (i <? 48)%nat then
      (N.lxor B (N.lxor C D), ((3 * i + 5) mod 16)%nat)
    else
      (N.lxor C (N.lor B (not32 D)), ((7 * i) mod 16)%nat) in
  let F := add32 (add32 (add32 F A) (nth i K 0)) (nth g M 0) in
  (D, add32 B (rotl32 F (nth i S 0)), B, C).

(** Four bytes, least significant first, as one word. *)
Definition word_of (bytes : list N) : N :=
  foldr (λ b acc, b + 256 * acc) 0 bytes.

Fixpoint words_of (n : nat) (bytes : list N) : list N :=
  match n with
  | O => []
  | Datatypes.S n' => word_of (take 4 bytes) :: words_of n' (drop 4 bytes)
  end.

Definition process (st : state) (block : list N) : state :=
  let '(a0, b0, c0, d0) := st in
  let '(A, B, C, D) := foldl (step (words_of 16 block)) st (seq 0 64) in
  (add32 a0 A, add32 b0 B, add32 c0 C, add32 d0 D).

Fixpoint le_bytes (n : nat) (x : N) : list N :=
  match n with
  | O => []
  | Datatypes.S n' => x mod 256 :: le_bytes n' (x / 256)
  end.

Definition pad (msg : list N) : list N :=
  let len := length msg in
  let zeros := ((64 + 55 - len mod 64) mod 64)%nat in
  msg ++ [0x80] ++ replicate zeros 0
      ++ le_bytes 8 ((8 * N.of_nat len) mod 2 ^ 64).

Fixpoint blocks (n : nat) (st : state) (bytes : list N) : state :=
  match n with
  | O => st
  | Datatypes.S n' => blocks n' (process st (take 64 bytes)) (drop 64 bytes)
  end.

Definition digest (msg : list N) : list N :=
  let padded := pad msg in
  let '(A, B, C, D) := blocks (length padded / 64) initial padded in
  le_bytes 4 A ++ le_bytes 4 B ++ le_bytes 4 C ++ le_bytes 4 D.

Definition hex_digit (n : N) : ascii :=
  if n <? 10 then ascii_of_N (48 + n) else ascii_of_N (87 + n).

Definition hexdigest (msg : string) : string :=
  String.string_of_list_ascii
    (digest (N_of_ascii <$> String.list_ascii_of_string msg)
       ≫= λ b, [hex_digit (b / 16); hex_digit (b mod 16)]).

End MD5.

Module Cache.

(** Modelled from the spec: main.py (the cache of SourcingAgent) is not
    among the sources.  Section 4.1: the key is a stable hash of the
    normalized (trimmed, whitespace-collapsed) job description, which the
    project write-up names as MD5; an entry expires 24 hours after
    [created_at]; [get] misses on an absent and on an expired entry, and
    drops the expired one. *)
Definition is_space (c : ascii) : bool :=
  bool_decide (c ∈ [" "; "009"; "010"; "011"; "012"; "013"]%char).

(** The words of a text; [cur] holds the word being read, reversed. *)
Fixpoint split (cur : list ascii) (s : list ascii) : list (list ascii) :=
  match s with
  | [] => match cur with [] => [] | _ => [rev cur] end
  | c :: rest =>
      if is_space c then
        match cur with
        | [] => split [] rest
        | _ => rev cur :: split [] rest
        end
      else split (c :: cur) rest
  end.

(** A word: not empty, no white space in it. *)
Definition is_word (w : list ascii) : Prop :=
  w ≠ [] ∧ Forall (λ c, is_space c = false) w.

Fixpoint join (ws : list (list ascii)) : list ascii :=
  match ws with
  | [] => []
  | [w] => w
  | w :: rest => w ++ " "%char :: join rest
  end.

(** Modelled from the spec: section 3, the normalized form of a job
    description (trimmed, white space collapsed). *)
Definition normalize (job_description : string) : string :=
  String.string_of_list_ascii
    (join (split [] (String.list_ascii_of_string job_description))).

(** Modelled from the spec: section 4.1, the key derivation; the hash is
    the MD5 the project write-up names. *)
Definition key (job_description : string) : string :=
  MD5.hexdigest (normalize job_description).

(** Two texts of 72 letters and digits that differ in their 22nd
    character. *)
Definition text_a : string :=
  "TEXTCOLLBYfGiJUETHQ4hAcKSMd5zYpgqf1YRDhkmxHkhPWptrkoyz28wnI9V0aHeAuaKnak".
Definition text_b : string :=
  "TEXTCOLLBYfGiJUETHQ4hEcKSMd5zYpgqf1YRDhkmxHkhPWptrkoyz28wnI9V0aHeAuaKnak".

Record CacheEntry := {
  value : list Model.RankedResult;
  created_at : N
}.

(** 24 hours, in seconds. *)
Definition EXPIRY : N := 24 * 60 * 60.

Definition is_expired (now : N) (entry : CacheEntry) : bool :=
  (created_at entry + EXPIRY <? now)%N.

(** Modelled from the spec: section 4.1, [get] with lazy eviction. *)
Definition get (now : N) (k : string) (store : gmap string CacheEntry)
  : option CacheEntry * gmap string CacheEntry :=
  match store !! k with
  | Some entry =>
      if is_expired now entry then (None, delete k store)
      else (Some entry, store)
  | None => (None, store)
  end.

Definition put (now : N) (k : string) (v : list Model.RankedResult)
    (store : gmap string CacheEntry) : gmap string CacheEntry :=
  <[k := {| value := v; created_at := now |}]> store.

End Cache.

(** *** Pipeline Orchestrator *)

Module Orchestrator.

Import Model.

(** Modelled from the spec: main.py (SourcingAgent) and api.py are not
    among the sources.  Section 4.5: cache check, then on a miss discovery,
    scoring and composition of every profile, ranking (stable, by
    descending fit score) and one cache write at the end; only
    [DiscoveryUnavailable] ends a request with an error.  The length check
    of the job description is the caller's. *)
Section Pipeline.
(** The external collaborators: the search back end (what each of the
    three strategies does for a job description), the inference back
    end, and the Outreach Composer, whose module message.py is not
    among the sources either. *)
Variable search : string →
  Discoverer.StrategyOutcome * Discoverer.StrategyOutcome
  * Discoverer.StrategyOutcome.
Variable infer : string → CandidateProfile → Scorer.Inference.
Variable compose :
  string → CandidateProfile → Scorer.ScoreResult → string.
Variable max_results : nat.

Definition score_and_compose (job_description : string)
    (p : CandidateProfile) : RankedResult :=
  let r := Scorer.score infer job_description p in
  {| candidate := p;
     fit_score := Scorer.FitScore r;
     breakdown := Scorer.ScoreBreakdown r;
     message := compose job_description p r;
     degraded := Scorer.is_fallback r |}.

Definition rank (results : list RankedResult) : list RankedResult :=
  ResultsDisplay.Array_sort (λ a b, fit_score b - fit_score a) results.

(** Modelled from the spec: section 4.5, the state machine of one request;
    main.py is not among the sources. *)
Definition run_pipeline (store : gmap string Cache.CacheEntry) (now : N)
    (job_description : string) (top_n : nat) (use_cache : bool)
  : (Discoverer.DiscoveryError + list RankedResult)
    * gmap string Cache.CacheEntry :=
  let k := Cache.key job_description in
  let '(hit, store) :=
    if use_cache then Cache.get now k store else (None, store) in
  match hit with
  | Some entry => (inr (Cache.value entry), store)
  | None =>
      let '(s1, s2, s3) := search job_description in
      match Discoverer.discover s1 s2 s3 max_results with
      | inl e => (inl e, store)
      | inr profiles =>
          let ranked :=
            take top_n (rank (score_and_compose job_description
                                <$> profiles)) in
          (inr ranked,
           if use_cache then Cache.put now k ranked store else store)
      end
  end.
End Pipeline.

(** What the core promises of a ranked result, and of a cache that only
    the pipeline has written to. *)
Definition consistent (r : RankedResult) : Prop :=
  fit_score r = Scorer.fit_score (breakdown r)
  ∧ Scorer.well_shaped (breakdown r).

Definition store_ok (store : gmap string Cache.CacheEntry) : Prop :=
  ∀ k entry, store !! k = Some entry → Forall consistent (Cache.value entry).

(** Modelled from the spec: section 6, the result item handed to the
    presentation layer, under the property names api.ts reads; api.py is
    not among the sources. *)
Definition to_item (r : RankedResult) : Api.BackendCandidate :=
  {| Api.name := Some (display_name (candidate r));
     Api.headline := Some (headline (candidate r));
     Api.linkedin_url := Some (profile_url (candidate r));
     Api.url := None;
     Api.fit_score := Some (fit_score r);
     Api.score_breakdown := Some (breakdown r);
     Api.outreach_message := Some (message r);
     Api.message := None |}.

(** Modelled from the spec: section 7, [DiscoveryUnavailable] is surfaced
    to the caller as an error, anything else as the ranked list. *)
Definition respond (outcome : Discoverer.DiscoveryError + list RankedResult)
  : Api.AxiosResult :=
  match outcome with
  | inl _ => Api.Rejected (Some "DiscoveryUnavailable")
  | inr results =>
      Api.Resolved {| Api.top_candidates := Some (to_item <$> results) |}
  end.

End Orchestrator.

(** *** A run of the pipeline on doubles *)

Module Sample.

Import Model.

Definition profile (url who : string) (strategy : nat) : CandidateProfile :=
  {| profile_url := url; display_name := who; headline := "Engineer";
     raw_text := ""; source := strategy |}.

(** The first strategy fails, the second finds two profiles (one of them
    twice). *)
Definition search (job_description : string) :
  Discoverer.StrategyOutcome * Discoverer.StrategyOutcome
  * Discoverer.StrategyOutcome :=
  (Discoverer.Failed,
   Discoverer.Found [profile "in/ada" "Ada" 2; profile "in/bob" "Bob" 2;
                     profile "in/ada" "Ada" 2],
   Discoverer.Found [profile "in/cy" "Cy" 3]).

(** The back end answers for Ada with the scores of the scenario and
    fails for everyone else. *)
Definition infer (job_description : string) (p : CandidateProfile)
  : Scorer.Inference :=
  if bool_decide (display_name p = "Ada") then
    Scorer.Parsed (Scorer.JNumber <$> Scorer.scenario_breakdown)
  else Scorer.InferenceFailed.

Definition compose (job_description : string) (p : CandidateProfile)
    (r : Scorer.ScoreResult) : string :=
  "Hi " +:+ display_name p.

Definition job_description : string :=
  "Senior Python Developer, 5+ years, Django, AWS".

(** What the front end may hold: four candidates, two of them with the
    same fit score. *)
Definition shown_candidate (i who : string) (s : Q) : Types.Candidate :=
  {| Types.id := i; Types.name := who; Types.title := "";
     Types.linkedinUrl := ""; Types.fitScore := s;
     Types.scoreBreakdown := Scorer.fallback_breakdown;
     Types.outreachMessage := ""; Types.avatar := "" |}.

Definition candidates : list Types.Candidate :=
  [shown_candidate "0" "Bob" 5; shown_candidate "1" "Ada" 7.35;
   shown_candidate "2" "Cy" 5; shown_candidate "3" "Dee" 9].

(** A comparison of names that is a consistent comparator: by length. *)
Definition byLength (a b : string) : Q :=
  inject_Z (Z.of_nat (String.length a) - Z.of_nat (String.length b)).

(** An answer of the back end: a complete item and an empty object. *)
Definition data : Api.ResponseData :=
  {| Api.top_candidates :=
       Some [Orchestrator.to_item
               (Orchestrator.score_and_compose infer compose job_description
                  (profile "in/ada" "Ada" 2));
             {| Api.name := None; Api.headline := None;
                Api.linkedin_url := None; Api.url := None;
                Api.fit_score := None; Api.score_breakdown := None;
                Api.outreach_message := None; Api.message := None |}] |}.

(** Two states of the form: 150 blanks and one letter; 100 letters between
    blanks. *)
Definition form_blank : JobForm.State :=
  {| JobForm.jobDescription := replicate 150 0x20%N ++ [0x61%N];
     JobForm.error := ""; JobForm.charCount := 151 |}.

Definition form_filled : JobForm.State :=
  {| JobForm.jobDescription :=
       [0x20%N; 0x0A%N] ++ replicate 100 0x61%N ++ [0xA0%N; 0x09%N];
     JobForm.error := ""; JobForm.charCount := 104 |}.

End Sample.

(** * Properties *)

(** ** api.ts *)

Section Api_facts.
Import Api.

Lemma or_lit_None {A} `{JS.Truthy A} (d : A) : JS.or_lit None d = d.
Proof. reflexivity. Qed.

Lemma or_prop_None {A} `{JS.Truthy A} : JS.or_prop (A:=A) None None = None.
Proof. reflexivity. Qed.

Lemma toString_inj i j : JS.toString i = JS.toString j → i = j.
Proof. unfold JS.toString. apply (inj pretty). Qed.

Lemma ids_NoDup (items : list BackendCandidate) :
  NoDup (Types.id <$> imap toCandidate items).
Proof.
  apply NoDup_alt. intros i j s Hi Hj.
  rewrite list_lookup_fmap, list_lookup_imap in Hi, Hj.
  destruct (items !! i) as [ci|]; [|discriminate].
  destruct (items !! j) as [cj|]; [|discriminate].
  simpl in Hi, Hj. apply toString_inj. congruence.
Qed.
End Api_facts.

Example toString_0 : JS.toString 0 = "0".
Proof. reflexivity. Qed.
Example toString_10 : JS.toString 10 = "10".
Proof. reflexivity. Qed.
Example toString_207 : JS.toString 207 = "207".
Proof. reflexivity. Qed.

(** C9.  Whatever data the back end answers with, fetchCandidates yields one
    candidate per element of top_candidates, in order, and none when the
    property is absent or null; the candidate at position i has the decimal
    string of i as id; a property the element lacks is replaced by its
    default (empty string for name, title, linkedinUrl and outreachMessage,
    0 for fitScore, the empty object for scoreBreakdown); the ids of one
    response are pairwise distinct. *)
Theorem fetchCandidates_shape (data : Api.ResponseData) :
  ∃ cs : list Types.Candidate,
    Api.fetchCandidates (Api.Resolved data) = inr cs
    ∧ length cs = length (default [] (Api.top_candidates data))
    ∧ (Api.top_candidates data = None → cs = [])
    ∧ (∀ i, cs !! i =
            Api.toCandidate i <$> default [] (Api.top_candidates data) !! i)
    ∧ (∀ i c, cs !! i = Some c → Types.id c = pretty i)
    ∧ (∀ i item, default [] (Api.top_candidates data) !! i = Some item →
         let c := Api.toCandidate i item in
         (Api.name item = None → Types.name c = "")
         ∧ (Api.headline item = None → Types.title c = "")
         ∧ (Api.linkedin_url item = None → Api.url item = None →
            Types.linkedinUrl c = "")
         ∧ (Api.fit_score item = None → Types.fitScore c = 0)
         ∧ (Api.score_breakdown item = None → Types.scoreBreakdown c = ∅)
         ∧ (Api.outreach_message item = None → Api.message item = None →
            Types.outreachMessage c = ""))
    ∧ NoDup (Types.id <$> cs).
Proof.
  assert (Hor : JS.or_lit (Api.top_candidates data) []
                = default [] (Api.top_candidates data))
    by (destruct (Api.top_candidates data); reflexivity).
  eexists. split; [reflexivity|]. rewrite Hor.
  split; [apply length_imap|].
  split; [intros ->; reflexivity|].
  split; [intros i; apply list_lookup_imap|].
  split.
  { intros i c. rewrite list_lookup_imap.
    destruct (_ !! i); simpl; [|discriminate].
    intros [= <-]. reflexivity. }
  split; [|apply ids_NoDup].
  intros i item _ c. subst c. simpl.
  repeat split; intros; repeat match goal with H : _ = None |- _ => rewrite H end;
    reflexivity.
Qed.

(** C9 on an answer with a complete item and an empty one. *)
Lemma fetchCandidates_shape_sample :
  ∃ cs : list Types.Candidate,
    Api.fetchCandidates (Api.Resolved Sample.data) = inr cs
    ∧ length cs = 2%nat
    ∧ Types.id <$> cs = ["0"; "1"]
    ∧ Types.name <$> cs = ["Ada"; ""]
    ∧ (λ c, size (Types.scoreBreakdown c)) <$> cs = [6; 0]%nat.
Proof.
  destruct (fetchCandidates_shape Sample.data) as (cs & Hcs & Hlen & _).
  exists cs. split; [exact Hcs|]. split; [exact Hlen|].
  injection Hcs as <-.
  split; [vm_compute; reflexivity|]. split; vm_compute; reflexivity.
Defined.

(** ** JobForm.tsx *)

Section JobForm_facts.
Import JobForm.

Lemma setError_error msg st : error (setError msg st) = msg.
Proof. reflexivity. Qed.

(** The three ways out of [handleSubmit], by the trimmed length. *)
Lemma handleSubmit_short st :
  (length (trim (jobDescription st)) < 100)%nat →
  handleSubmit st =
    (setError "Job description must be at least 100 characters long." st, []).
Proof.
  intros H. unfold handleSubmit.
  destruct (Nat.ltb_spec (length (trim (jobDescription st))) 100);
    [reflexivity | lia].
Qed.

Lemma handleSubmit_long st :
  (2000 < length (trim (jobDescription st)))%nat →
  handleSubmit st =
    (setError "Job description must not exceed 2000 characters." st, []).
Proof.
  intros H. unfold handleSubmit.
  destruct (Nat.ltb_spec (length (trim (jobDescription st))) 100); [lia|].
  destruct (Nat.ltb_spec 2000 (length (trim (jobDescription st))));
    [reflexivity | lia].
Qed.

Lemma handleSubmit_accepted st :
  (100 ≤ length (trim (jobDescription st)) ≤ 2000)%nat →
  handleSubmit st = (st, [trim (jobDescription st)]).
Proof.
  intros H. unfold handleSubmit.
  destruct (Nat.ltb_spec (length (trim (jobDescription st))) 100); [lia|].
  destruct (Nat.ltb_spec 2000 (length (trim (jobDescription st))));
    [lia | reflexivity].
Qed.

(** [trim] leaves no white space at either end. *)
Lemma trimStart_head s c rest :
  trimStart s = c :: rest → is_white_space c = false.
Proof.
  induction s as [|a s IH]; simpl; [discriminate|].
  destruct (is_white_space a) eqn:Ha; [exact IH|].
  intros [= <- <-]. exact Ha.
Qed.

Lemma trimStart_suffix s : ∃ ws, s = ws ++ trimStart s
                                 ∧ forallb is_white_space ws = true.
Proof.
  induction s as [|a s (ws & Hs & Hws)]; simpl.
  - exists []. split; reflexivity.
  - destruct (is_white_space a) eqn:Ha.
    + exists (a :: ws). simpl. rewrite Ha, Hws. split; [congruence|reflexivity].
    + exists []. split; reflexivity.
Qed.
End JobForm_facts.

(** C7.  A submitted job description whose trimmed length is below 100 or
    above 2000 is rejected by the form: onSubmit is not called (so the
    pipeline is not invoked) and an error message is set; when the trimmed
    length lies in [100, 2000], onSubmit is called exactly once, with the
    trimmed text. *)
Theorem handleSubmit_length_bounds (st : JobForm.State) :
  let n := length (JobForm.trim (JobForm.jobDescription st)) in
  ((n < 100 ∨ 2000 < n)%nat →
     (JobForm.handleSubmit st).2 = []
     ∧ JobForm.error (JobForm.handleSubmit st).1 ≠ "")
  ∧ ((100 ≤ n ≤ 2000)%nat →
     (JobForm.handleSubmit st).2 = [JobForm.trim (JobForm.jobDescription st)]
     ∧ (JobForm.handleSubmit st).1 = st).
Proof.
  intros n. subst n. split.
  - intros [H|H].
    + rewrite handleSubmit_short by exact H. split; [reflexivity|discriminate].
    + rewrite handleSubmit_long by exact H. split; [reflexivity|discriminate].
  - intros H. rewrite handleSubmit_accepted by exact H. split; reflexivity.
Qed.

(** C7 on a text of blanks around one letter, and on 100 letters between
    blanks. *)
Lemma handleSubmit_length_bounds_sample :
  ((JobForm.handleSubmit Sample.form_blank).2 = []
   ∧ JobForm.error (JobForm.handleSubmit Sample.form_blank).1 ≠ "")
  ∧ ((JobForm.handleSubmit Sample.form_filled).2 = [replicate 100 0x61%N]
     ∧ (JobForm.handleSubmit Sample.form_filled).1 = Sample.form_filled).
Proof.
  split.
  - apply (proj1 (handleSubmit_length_bounds Sample.form_blank)).
    left. vm_compute. lia.
  - apply (proj2 (handleSubmit_length_bounds Sample.form_filled)).
    vm_compute. lia.
Defined.

(** ** ResultsDisplay.tsx *)

Section Array_sort_facts.
Import ResultsDisplay.
Context {A : Type}.

Lemma insert_Permutation (cmp : A → A → Q) x l : insert cmp x l ≡ₚ x :: l.
Proof.
  induction l as [|y l IH]; simpl; [reflexivity|].
  destruct (Qle_bool (cmp x y) 0); [reflexivity|].
  rewrite IH. apply perm_swap.
Qed.

Lemma Array_sort_Permutation (cmp : A → A → Q) l : Array_sort cmp l ≡ₚ l.
Proof.
  induction l as [|x l IH]; simpl; [reflexivity|].
  rewrite insert_Permutation, IH. reflexivity.
Qed.

(** Stability, for a class [P] of elements that the comparator never puts
    in the wrong order: the members of the class keep their order. *)
Lemma insert_filter (cmp : A → A → Q) (P : A → bool) x l :
  (∀ y, P x = true → P y = true → Qle_bool (cmp x y) 0 = true) →
  List.filter P (insert cmp x l) = List.filter P (x :: l).
Proof.
  intros Hcmp. induction l as [|y l IH]; simpl; [reflexivity|].
  destruct (Qle_bool (cmp x y) 0) eqn:Hxy; [reflexivity|].
  simpl in *. rewrite IH.
  destruct (P x) eqn:Hx, (P y) eqn:Hy; try reflexivity.
  rewrite Hcmp in Hxy by (reflexivity || assumption). discriminate.
Qed.

Lemma Array_sort_filter (cmp : A → A → Q) (P : A → bool) l :
  (∀ x y, P x = true → P y = true → Qle_bool (cmp x y) 0 = true) →
  List.filter P (Array_sort cmp l) = List.filter P l.
Proof.
  intros Hcmp. induction l as [|x l IH]; simpl; [reflexivity|].
  rewrite insert_filter by (apply Hcmp). simpl. rewrite IH. reflexivity.
Qed.

(** Sorting by a numeric key, largest first. *)
Variable key : A → Q.
Let descending (a b : A) : Q := key b - key a.
Let before (a b : A) : Prop := key b <= key a.

Lemma descending_le x y :
  Qle_bool (descending x y) 0 = true ↔ key y <= key x.
Proof. unfold descending. rewrite Qle_bool_iff. split; intros; lra. Qed.

Lemma insert_sorted x l :
  StronglySorted before l → StronglySorted before (insert descending x l).
Proof.
  induction l as [|y l IH]; simpl; intros Hl.
  - repeat constructor.
  - apply StronglySorted_inv in Hl as [Hl Hy].
    destruct (Qle_bool (descending x y) 0) eqn:Hxy.
    + apply descending_le in Hxy.
      constructor; [constructor; assumption|].
      constructor; [exact Hxy|].
      eapply Forall_impl; [exact Hy|].
      unfold before. intros z Hz. simpl in Hz. lra.
    + assert (Hlt : key x < key y).
      { apply Qnot_le_lt. intros Hle. apply descending_le in Hle. congruence. }
      constructor; [apply IH; exact Hl|].
      rewrite insert_Permutation. constructor; [|exact Hy].
      unfold before. lra.
Qed.

Lemma Array_sort_sorted l : StronglySorted before (Array_sort descending l).
Proof.
  induction l as [|x l IH]; simpl; [constructor | apply insert_sorted, IH].
Qed.

Lemma Array_sort_stable s l :
  List.filter (λ a, Qeq_bool (key a) s) (Array_sort descending l)
  = List.filter (λ a, Qeq_bool (key a) s) l.
Proof.
  apply Array_sort_filter. intros x y Hx Hy.
  apply Qeq_bool_iff in Hx, Hy. apply descending_le. lra.
Qed.
End Array_sort_facts.

Section ResultsDisplay_facts.
Import ResultsDisplay.
Variable localeCompare : string → string → Q.

Lemma filter_filter_implied {A} (P R : A → bool) l :
  (∀ x, P x = true → R x = true) →
  List.filter P (List.filter R l) = List.filter P l.
Proof.
  intros HPR. induction l as [|x l IH]; simpl; [reflexivity|].
  destruct (R x) eqn:HR; simpl; rewrite IH; [reflexivity|].
  destruct (P x) eqn:HP; [|reflexivity].
  rewrite HPR in HR by exact HP. discriminate.
Qed.

Lemma shown_Permutation candidates sortBy t :
  filteredAndSortedCandidates localeCompare candidates sortBy t
  ≡ₚ List.filter (λ c, Qle_bool t (Types.fitScore c)) candidates.
Proof. apply Array_sort_Permutation. Qed.

Lemma shown_elem_of candidates sortBy t c :
  c ∈ filteredAndSortedCandidates localeCompare candidates sortBy t
  ↔ c ∈ candidates ∧ t <= Types.fitScore c.
Proof.
  rewrite shown_Permutation, !list_elem_of_In, filter_In, Qle_bool_iff.
  reflexivity.
Qed.
End ResultsDisplay_facts.

(** C3.  With the default ordering (sort by score) the list ResultsDisplay
    shows is in descending order of fit score, and the sort is stable: for
    every score value that passes the filter, the candidates with that score
    appear in the order in which they came in. *)
Theorem shown_descending_stable
    (localeCompare : string → string → Q)
    (candidates : list Types.Candidate) (filterMinScore : Q) :
  let shown :=
    ResultsDisplay.filteredAndSortedCandidates localeCompare candidates
      ResultsDisplay.score filterMinScore in
  StronglySorted (λ a b, Types.fitScore b <= Types.fitScore a) shown
  ∧ (∀ s, filterMinScore <= s →
       List.filter (λ c, Qeq_bool (Types.fitScore c) s) shown
       = List.filter (λ c, Qeq_bool (Types.fitScore c) s) candidates).
Proof.
  intros shown. subst shown. unfold ResultsDisplay.filteredAndSortedCandidates.
  split.
  - apply (Array_sort_sorted Types.fitScore).
  - intros s Hs. unfold ResultsDisplay.comparator.
    rewrite (Array_sort_stable Types.fitScore).
    apply filter_filter_implied. intros c Hc.
    apply Qeq_bool_iff in Hc. apply Qle_bool_iff. lra.
Qed.

Lemma sample_in_range c :
  c ∈ Sample.candidates → 0 <= Types.fitScore c <= 10.
Proof.
  unfold Sample.candidates. intros Hc.
  repeat (apply elem_of_cons in Hc as [->|Hc]; [simpl; lra|]).
  inversion Hc.
Qed.

(** C3 on four candidates, Bob and Cy both at 5: Dee, Ada, Bob, Cy is
    shown, Bob still in front of Cy. *)
Lemma shown_descending_stable_sample :
  List.filter (λ c, Qeq_bool (Types.fitScore c) 5)
    (ResultsDisplay.filteredAndSortedCandidates (λ _ _, 0) Sample.candidates
       ResultsDisplay.score 0)
  = [Sample.shown_candidate "0" "Bob" 5; Sample.shown_candidate "2" "Cy" 5]
  ∧ Types.id <$> ResultsDisplay.filteredAndSortedCandidates (λ _ _, 0)
                   Sample.candidates ResultsDisplay.score 0
    = ["3"; "1"; "0"; "2"].
Proof.
  split; [|reflexivity].
  rewrite (proj2 (shown_descending_stable (λ _ _, 0) Sample.candidates 0) 5
             ltac:(lra)).
  reflexivity.
Defined.

(** C10.  Whatever the ordering and the threshold, ResultsDisplay shows
    exactly the candidates whose raw fitScore is at least the threshold:
    the same candidates with the same multiplicities.  The threshold is
    compared with the 0-10 value, so a list whose fit scores all lie in
    [0,10] shows nothing under a threshold of 70 or more (the options 70,
    80 and 90). *)
Theorem min_score_filter
    (localeCompare : string → string → Q)
    (candidates : list Types.Candidate) (sortBy : ResultsDisplay.SortBy)
    (t : Q) :
  let shown :=
    ResultsDisplay.filteredAndSortedCandidates localeCompare candidates
      sortBy t in
  shown ≡ₚ List.filter (λ c, Qle_bool t (Types.fitScore c)) candidates
  ∧ (∀ c, c ∈ shown ↔ c ∈ candidates ∧ t <= Types.fitScore c)
  ∧ ((∀ c, c ∈ candidates → 0 <= Types.fitScore c <= 10) →
     70 <= t → shown = [])
  ∧ (∀ o, o ∈ ResultsDisplay.filterMinScore_options → o = 0 ∨ 70 <= o).
Proof.
  intros shown. subst shown.
  split; [apply shown_Permutation|].
  split; [intros c; apply shown_elem_of|].
  split.
  - intros Hrange Ht.
    destruct (ResultsDisplay.filteredAndSortedCandidates _ _ _ _) as [|c l] eqn:E;
      [reflexivity|exfalso].
    assert (Hc : c ∈ ResultsDisplay.filteredAndSortedCandidates
                       localeCompare candidates sortBy t)
      by (rewrite E; left).
    apply shown_elem_of in Hc as [Hin Hle].
    specialize (Hrange c Hin). lra.
  - intros o Ho. unfold ResultsDisplay.filterMinScore_options in Ho.
    repeat (apply elem_of_cons in Ho as [->|Ho]);
      [left; reflexivity | right; lra ..|].
    inversion Ho.
Qed.

(** C10 on the four candidates, whose fit scores lie in [0,10]: nothing is
    shown under the threshold 70, and under the threshold 6 Dee and Ada
    are. *)
Lemma min_score_filter_sample :
  ResultsDisplay.filteredAndSortedCandidates (λ _ _, 0) Sample.candidates
    ResultsDisplay.score 70 = []
  ∧ ResultsDisplay.filteredAndSortedCandidates (λ _ _, 0) Sample.candidates
      ResultsDisplay.name 6
    ≡ₚ [Sample.shown_candidate "1" "Ada" 7.35;
        Sample.shown_candidate "3" "Dee" 9].
Proof.
  split.
  - apply (min_score_filter (λ _ _, 0) Sample.candidates ResultsDisplay.score 70).
    + apply sample_in_range.
    + lra.
  - apply (min_score_filter (λ _ _, 0) Sample.candidates ResultsDisplay.name 6).
Defined.

(** ** IEEE 754 binary64 *)

Section Float64_facts.
Import Float64.

(** Rounding to the nearest integer moves by one half at most, is monotone
    and leaves the integers where they are. *)
Lemma rne_near x : x - (1 # 2) <= inject_Z (rne x) ∧ inject_Z (rne x) <= x + (1 # 2).
Proof.
  unfold rne. pose proof (Qfloor_le x) as Hlo. pose proof (Qlt_floor x) as Hhi.
  rewrite inject_Z_plus in Hhi. change (inject_Z 1) with 1 in Hhi.
  destruct (Qcompare_spec (x - inject_Z (Qfloor x)) (1 # 2)) as [E|E|E].
  - destruct (Z.even (Qfloor x)); [|rewrite inject_Z_plus; change (inject_Z 1) with 1];
      split; lra.
  - split; lra.
  - rewrite inject_Z_plus. change (inject_Z 1) with 1. split; lra.
Qed.

Lemma rne_between x :
  (Qfloor x <= rne x <= Qfloor x + 1)%Z.
Proof.
  unfold rne. destruct (Qcompare _ _); [destruct (Z.even _)| |]; lia.
Qed.

Lemma rne_mono x y : x <= y → (rne x <= rne y)%Z.
Proof.
  intros Hxy. pose proof (Qfloor_resp_le _ _ Hxy) as Hf.
  destruct (Z.eq_dec (Qfloor x) (Qfloor y)) as [E|E].
  - unfold rne. rewrite <- E.
    destruct (Qcompare_spec (x - inject_Z (Qfloor x)) (1 # 2)) as [Ex|Ex|Ex];
    destruct (Qcompare_spec (y - inject_Z (Qfloor x)) (1 # 2)) as [Ey|Ey|Ey];
      try (destruct (Z.even (Qfloor x))); try lia; exfalso; lra.
  - pose proof (rne_between x). pose proof (rne_between y). lia.
Qed.

Lemma rne_inject z : rne (inject_Z z) = z.
Proof.
  unfold rne. rewrite Qfloor_Z.
  destruct (Qcompare_spec (inject_Z z - inject_Z z) (1 # 2)) as [E|E|E];
    [exfalso; lra | reflexivity | exfalso; lra].
Qed.

Lemma pow2_pos k : 0 < pow2 k.
Proof. apply Qpower_0_lt. reflexivity. Qed.

Lemma pow2_add a b : pow2 (a + b) == pow2 a * pow2 b.
Proof. apply Qpower_plus. discriminate. Qed.

Lemma pow2_succ a : pow2 (a + 1) == 2 * pow2 a.
Proof. rewrite pow2_add. change (pow2 1) with 2. ring. Qed.

Lemma pow2_le a b : (a <= b)%Z → pow2 a <= pow2 b.
Proof. intros H. apply Qpower_le_compat_l; [exact H | discriminate]. Qed.

Lemma pow2_lt a b : (a < b)%Z → pow2 a < pow2 b.
Proof. intros H. apply Qpower_lt_compat_l; [exact H | reflexivity]. Qed.

Lemma pow2_lt_inv a b : pow2 a < pow2 b → (a < b)%Z.
Proof.
  intros H. destruct (Z_lt_le_dec a b) as [Hab|Hab]; [exact Hab|].
  apply pow2_le in Hab. lra.
Qed.

Lemma pow2_Z k : (0 <= k)%Z → pow2 k == inject_Z (2 ^ k).
Proof. intros H. symmetry. apply (Zpower_Qpower 2 k H). Qed.

Lemma Q_as_fraction q : q * inject_Z (Zpos (Qden q)) == inject_Z (Qnum q).
Proof.
  destruct q as [n d]. unfold Qeq, Qmult, inject_Z. simpl. lia.
Qed.

Lemma log2_bounds_Q z :
  (0 < z)%Z → pow2 (Z.log2 z) <= inject_Z z ∧ inject_Z z < pow2 (Z.log2 z + 1).
Proof.
  intros Hz. destruct (Z.log2_spec z Hz) as [Hlo Hhi].
  pose proof (Z.log2_nonneg z) as Hn.
  rewrite !pow2_Z by lia. rewrite <- Zle_Qle, <- Zlt_Qlt.
  replace (Z.log2 z + 1)%Z with (Z.succ (Z.log2 z)) by lia. split; assumption.
Qed.

(** [ilog2] is the binade, and the only one. *)
Lemma ilog2_spec q : 0 < q → pow2 (ilog2 q) <= q ∧ q < pow2 (ilog2 q + 1).
Proof.
  intros Hq. unfold ilog2.
  set (a := Z.log2 (Qnum q)). set (b := Z.log2 (Zpos (Qden q))).
  assert (Hn : (0 < Qnum q)%Z).
  { destruct q as [n d]. unfold Qlt in Hq. simpl in *. lia. }
  destruct (log2_bounds_Q (Qnum q) Hn) as [Na Nb]. fold a in Na, Nb.
  destruct (log2_bounds_Q (Zpos (Qden q)) eq_refl) as [Da Db]. fold b in Da, Db.
  pose proof (Q_as_fraction q) as Hf.
  set (N := inject_Z (Qnum q)) in *. set (D := inject_Z (Zpos (Qden q))) in *.
  assert (HD : 0 < D) by (pose proof (pow2_pos b); lra).
  assert (Hlow : pow2 (a - b - 1) < q).
  { apply (Qmult_lt_r _ _ D HD). rewrite Hf.
    apply Qlt_le_trans with (pow2 (a - b - 1) * pow2 (b + 1)).
    - apply Qmult_lt_l; [apply pow2_pos | exact Db].
    - rewrite <- pow2_add. replace (a - b - 1 + (b + 1))%Z with a by lia. exact Na. }
  assert (Hhigh : q < pow2 (a - b + 1)).
  { apply (Qmult_lt_r _ _ D HD). rewrite Hf.
    apply Qlt_le_trans with (pow2 (a - b + 1) * pow2 b).
    - rewrite <- pow2_add. replace (a - b + 1 + b)%Z with (a + 1)%Z by lia. exact Nb.
    - apply Qmult_le_l; [apply pow2_pos | exact Da]. }
  destruct (Qle_bool (pow2 (a - b)) q) eqn:E.
  - apply Qle_bool_iff in E. split; assumption.
  - assert (q < pow2 (a - b)).
    { apply Qnot_le_lt. intros H. apply Qle_bool_iff in H. congruence. }
    replace (a - b - 1 + 1)%Z with (a - b)%Z by lia. split; [apply Qlt_le_weak|]; assumption.
Qed.

Lemma ilog2_unique q e : pow2 e <= q → q < pow2 (e + 1) → ilog2 q = e.
Proof.
  intros Hlo Hhi.
  assert (Hq : 0 < q) by (pose proof (pow2_pos e); lra).
  destruct (ilog2_spec q Hq) as [Slo Shi].
  assert (ilog2 q < e + 1)%Z by (apply pow2_lt_inv; lra).
  assert (e < ilog2 q + 1)%Z by (apply pow2_lt_inv; lra).
  lia.
Qed.

Lemma ilog2_mono x y : 0 < x → x <= y → (ilog2 x <= ilog2 y)%Z.
Proof.
  intros Hx Hxy.
  destruct (ilog2_spec x Hx) as [Xlo Xhi].
  destruct (ilog2_spec y ltac:(lra)) as [Ylo Yhi].
  assert (ilog2 x < ilog2 y + 1)%Z by (apply pow2_lt_inv; lra). lia.
Qed.

Lemma div_pow2_mono k x y : x <= y → x / pow2 k <= y / pow2 k.
Proof.
  intros H. unfold Qdiv. apply Qmult_le_compat_r; [exact H|].
  apply Qinv_le_0_compat, Qlt_le_weak, pow2_pos.
Qed.

(** Rounding to a grid is monotone, fixes the grid and moves by half a step
    at most. *)
Lemma grid_mono k x y : x <= y → grid k x <= grid k y.
Proof.
  intros H. unfold grid. apply Qmult_le_compat_r; [|apply Qlt_le_weak, pow2_pos].
  rewrite <- Zle_Qle. apply rne_mono, div_pow2_mono, H.
Qed.

Lemma grid_fix k z : grid k (inject_Z z * pow2 k) == inject_Z z * pow2 k.
Proof.
  unfold grid.
  assert (E : inject_Z z * pow2 k / pow2 k == inject_Z z).
  { field. pose proof (pow2_pos k). lra. }
  assert (Hr : rne (inject_Z z * pow2 k / pow2 k) = z).
  { rewrite <- (rne_inject z) at 2.
    apply Z.le_antisymm; apply rne_mono; rewrite E; apply Qle_refl. }
  rewrite Hr. reflexivity.
Qed.

Lemma grid_pow2 k j : (k <= j)%Z → grid k (pow2 j) == pow2 j.
Proof.
  intros H.
  assert (E : pow2 j == inject_Z (2 ^ (j - k)) * pow2 k).
  { rewrite <- pow2_Z by lia. rewrite <- pow2_add. replace (j - k + k)%Z with j by lia.
    reflexivity. }
  transitivity (grid k (inject_Z (2 ^ (j - k)) * pow2 k)).
  - apply Qle_antisym; apply grid_mono; rewrite E; apply Qle_refl.
  - rewrite grid_fix. symmetry. exact E.
Qed.

Lemma grid_near k q :
  q - pow2 (k - 1) <= grid k q ∧ grid k q <= q + pow2 (k - 1).
Proof.
  unfold grid. pose proof (rne_near (q / pow2 k)) as [Hlo Hhi].
  pose proof (pow2_pos k) as Hp.
  assert (Hk : pow2 k == 2 * pow2 (k - 1)).
  { rewrite <- pow2_succ. replace (k - 1 + 1)%Z with k by lia. reflexivity. }
  assert (E : q == q / pow2 k * pow2 k) by (field; lra).
  set (r := inject_Z (rne (q / pow2 k))) in *. set (t := q / pow2 k) in *.
  assert (H1 : (t - (1 # 2)) * pow2 k <= r * pow2 k)
    by (apply Qmult_le_compat_r; lra).
  assert (H2 : r * pow2 k <= (t + (1 # 2)) * pow2 k)
    by (apply Qmult_le_compat_r; lra).
  split; lra.
Qed.

Lemma exponent_mono x y : 0 < x → x <= y → (exponent x <= exponent y)%Z.
Proof. intros Hx Hxy. unfold exponent. pose proof (ilog2_mono x y Hx Hxy). lia. Qed.

(** Rounding to binary64 is monotone: across a binade boundary the power
    of two lies on both grids. *)
Lemma nearest_mono x y : 0 < x → x <= y → nearest x <= nearest y.
Proof.
  intros Hx Hxy. unfold nearest. fold (grid (exponent x) x) (grid (exponent y) y).
  pose proof (exponent_mono x y Hx Hxy) as Hk.
  destruct (Z.eq_dec (exponent x) (exponent y)) as [E|E].
  - rewrite E. apply grid_mono, Hxy.
  - assert (Hy : 0 < y) by lra.
    destruct (ilog2_spec x Hx) as [_ Xhi]. destruct (ilog2_spec y Hy) as [Ylo _].
    assert (Hlt : (ilog2 x < ilog2 y)%Z) by (unfold exponent in *; lia).
    assert (Hky : (exponent y <= ilog2 y)%Z) by (unfold exponent in *; lia).
    assert (Hmid : pow2 (ilog2 x + 1) <= pow2 (ilog2 y)) by (apply pow2_le; lia).
    apply Qle_trans with (pow2 (ilog2 y)).
    + rewrite <- (grid_pow2 (exponent x) (ilog2 y)) by lia.
      apply grid_mono. lra.
    + rewrite <- (grid_pow2 (exponent y) (ilog2 y)) at 1 by lia.
      apply grid_mono, Ylo.
Qed.

Lemma grid_zero k : grid k 0 == 0.
Proof.
  transitivity (grid k (inject_Z 0 * pow2 k)).
  - apply Qle_antisym; apply grid_mono; change (inject_Z 0) with 0; lra.
  - rewrite grid_fix. change (inject_Z 0) with 0. ring.
Qed.

Lemma nearest_nonneg q : 0 <= q → 0 <= nearest q.
Proof.
  intros H. unfold nearest. fold (grid (exponent q) q).
  rewrite <- (grid_zero (exponent q)). apply grid_mono, H.
Qed.

Lemma num_le_trans x y z : le x y → le y z → le x z.
Proof.
  unfold le. destruct x, y, z; simpl; try congruence.
  rewrite !Qle_bool_iff. apply Qle_trans.
Qed.

Lemma num_le_Fin a b : le (Fin a) (Fin b) ↔ a <= b.
Proof. unfold le. simpl. apply Qle_bool_iff. Qed.

Lemma round_pos q :
  0 < q →
  round q = if Qle_bool (pow2 1024) (nearest q) then PInf else Fin (nearest q).
Proof.
  intros H. unfold round.
  destruct (Qcompare_spec q 0) as [E|E|E]; [lra | lra | reflexivity].
Qed.

Lemma round_neg q :
  q < 0 →
  round q = if Qle_bool (pow2 1024) (nearest (- q)) then NInf
            else Fin (- nearest (- q)).
Proof.
  intros H. unfold round.
  destruct (Qcompare_spec q 0) as [E|E|E]; [lra | reflexivity | lra].
Qed.

Lemma round_zero q : q == 0 → round q = Fin 0.
Proof.
  intros H. unfold round.
  destruct (Qcompare_spec q 0) as [E|E|E]; [reflexivity | lra | lra].
Qed.

Lemma Qle_bool_false a b : Qle_bool a b = false ↔ b < a.
Proof.
  split.
  - intros E. apply Qnot_le_lt. intros H. apply Qle_bool_iff in H. congruence.
  - intros H. destruct (Qle_bool a b) eqn:E; [|reflexivity].
    apply Qle_bool_iff in E. lra.
Qed.

Lemma round_not_NaN q : round q ≠ NaN.
Proof.
  unfold round. destruct (Qcompare q 0); [discriminate| |];
    destruct (Qle_bool _ _); discriminate.
Qed.

Lemma num_le_PInf x : x ≠ NaN → le x PInf.
Proof. destruct x; [reflexivity..|contradiction]. Qed.

Lemma num_le_NInf x : x ≠ NaN → le NInf x.
Proof. destruct x; [reflexivity..|contradiction]. Qed.

Lemma num_le_refl x : x ≠ NaN → le x x.
Proof.
  destruct x; [|reflexivity..|contradiction]. intros _. apply num_le_Fin, Qle_refl.
Qed.

Lemma round_mono x y : x <= y → le (round x) (round y).
Proof.
  intros Hxy.
  destruct (Q_dec x 0) as [[Hx|Hx]|Hx], (Q_dec y 0) as [[Hy|Hy]|Hy];
    try (exfalso; lra).
  - rewrite (round_neg x Hx), (round_neg y Hy).
    pose proof (nearest_mono (- y) (- x) ltac:(lra) ltac:(lra)) as Hn.
    destruct (Qle_bool (pow2 1024) (nearest (- x))) eqn:Ex.
    { destruct (Qle_bool _ (nearest (- y))); reflexivity. }
    apply Qle_bool_false in Ex.
    rewrite (proj2 (Qle_bool_false _ _)) by lra. apply num_le_Fin. lra.
  - rewrite (round_neg x Hx), (round_pos y Hy).
    pose proof (nearest_nonneg (- x) ltac:(lra)). pose proof (nearest_nonneg y ltac:(lra)).
    destruct (Qle_bool _ (nearest (- x))), (Qle_bool _ (nearest y)); try reflexivity.
    apply num_le_Fin. lra.
  - rewrite (round_neg x Hx), (round_zero y Hy).
    pose proof (nearest_nonneg (- x) ltac:(lra)).
    destruct (Qle_bool _ (nearest (- x))); [reflexivity|].
    apply num_le_Fin. lra.
  - rewrite (round_pos x Hx), (round_pos y Hy).
    pose proof (nearest_mono x y Hx Hxy) as Hn.
    destruct (Qle_bool (pow2 1024) (nearest y)) eqn:Ey.
    { destruct (Qle_bool _ (nearest x)); reflexivity. }
    apply Qle_bool_false in Ey.
    rewrite (proj2 (Qle_bool_false _ _)) by lra. apply num_le_Fin, Hn.
  - rewrite (round_zero x Hx), (round_pos y Hy).
    pose proof (nearest_nonneg y ltac:(lra)).
    destruct (Qle_bool _ (nearest y)); [reflexivity|].
    apply num_le_Fin. lra.
  - rewrite (round_zero x Hx), (round_zero y Hy). reflexivity.
Qed.

Lemma exponent_le q j :
  0 < q → q <= pow2 j → (-1022 <= j)%Z → (exponent q <= j - 52)%Z.
Proof.
  intros Hq Hj Hmin. destruct (ilog2_spec q Hq) as [Hlo _].
  assert (ilog2 q < j + 1)%Z.
  { apply pow2_lt_inv. pose proof (pow2_lt j (j + 1) ltac:(lia)). lra. }
  unfold exponent. lia.
Qed.

(** A result in [0, 2^j] is rounded within [0, 2^j], by half a unit in
    the last place of that binade at most. *)
Lemma round_near j q :
  0 <= q → q <= pow2 j → (-1022 <= j <= 1023)%Z →
  ∃ r, round q = Fin r
       ∧ (0 <= r ∧ r <= pow2 j)
       ∧ (q - pow2 (j - 53) <= r ∧ r <= q + pow2 (j - 53)).
Proof.
  intros H0 Hj Hr. pose proof (pow2_pos j) as Hpj. pose proof (pow2_pos (j - 53)) as Hpe.
  destruct (Qlt_le_dec 0 q) as [Hq|Hq].
  - pose proof (exponent_le q j Hq Hj ltac:(lia)) as Hk.
    assert (Hup : nearest q <= pow2 j).
    { unfold nearest. fold (grid (exponent q) q).
      rewrite <- (grid_pow2 (exponent q) j) by lia. apply grid_mono, Hj. }
    assert (Hover : Qle_bool (pow2 1024) (nearest q) = false).
    { apply Qle_bool_false. pose proof (pow2_lt j 1024 ltac:(lia)). lra. }
    exists (nearest q). rewrite (round_pos q Hq), Hover.
    split; [reflexivity|]. split; [split; [apply nearest_nonneg; lra | exact Hup]|].
    pose proof (grid_near (exponent q) q) as [Glo Ghi].
    fold (nearest q) in Glo, Ghi. unfold grid in Glo, Ghi. fold (nearest q) in Glo, Ghi.
    pose proof (pow2_le (exponent q - 1) (j - 53) ltac:(lia)). split; lra.
  - exists 0. rewrite (round_zero q) by lra. split; [reflexivity|]. split; split; lra.
Qed.

(** The binary64 values of the binade [2^e, 2^(e+1)) are the multiples of
    [2^(e-52)] in it; hence no binary64 value lies between [below e T] and
    [above e T]. *)
Lemma double_on_grid f e :
  is_double f → pow2 e <= f → f < pow2 (e + 1) → (-1022 <= e)%Z →
  ∃ m : Z, f == inject_Z m * pow2 (e - 52).
Proof.
  intros (r & Hr & E) Hlo Hhi He.
  assert (Hf : 0 < f) by (pose proof (pow2_pos e); lra).
  rewrite (round_pos f Hf) in Hr.
  destruct (Qle_bool _ _); [discriminate|]. injection Hr as <-.
  unfold nearest in E.
  assert (Hk : exponent f = (e - 52)%Z).
  { unfold exponent. rewrite (ilog2_unique f e Hlo Hhi). lia. }
  rewrite Hk in E. eexists. symmetry. exact E.
Qed.

Lemma pow2_scaled e j :
  (0 <= 52 + j)%Z → pow2 (e + j) == inject_Z (2 ^ (52 + j)) * pow2 (e - 52).
Proof.
  intros H. rewrite <- pow2_Z by lia. rewrite <- pow2_add.
  replace (52 + j + (e - 52))%Z with (e + j)%Z by lia. reflexivity.
Qed.

Lemma double_above f e T :
  is_double f → pow2 e <= T → T < pow2 (e + 1) → (-1022 <= e)%Z →
  T <= f → above e T <= f.
Proof.
  intros Hd Tlo Thi He HT. unfold above.
  pose proof (pow2_pos (e - 52)) as Hp.
  set (p := pow2 (e - 52)) in *.
  assert (Et : T == T / p * p) by (field; lra).
  pose proof (Qle_ceiling (T / p)) as Hceil.
  pose proof (Qceiling_lt (T / p)) as Hceil'.
  destruct (Qlt_le_dec f (pow2 (e + 1))) as [Hf|Hf].
  - destruct (double_on_grid f e Hd ltac:(lra) Hf He) as [m Hm]. fold p in Hm.
    rewrite Hm. apply Qmult_le_compat_r; [|lra].
    rewrite <- Zle_Qle.
    assert (Hlt : (Qceiling (T / p) - 1 < m)%Z).
    { rewrite Zlt_Qlt. apply Qlt_le_trans with (T / p); [exact Hceil'|].
      apply (Qmult_le_r _ _ p Hp). rewrite <- Et, <- Hm. exact HT. }
    lia.
  - pose proof (pow2_scaled e 1 ltac:(lia)) as Hs. fold p in Hs.
    apply Qle_trans with (inject_Z (2 ^ (52 + 1)) * p); [|lra].
    apply Qmult_le_compat_r; [|lra]. rewrite <- Zle_Qle.
    assert (Hlt : (Qceiling (T / p) - 1 < 2 ^ (52 + 1))%Z).
    { rewrite Zlt_Qlt. apply Qlt_le_trans with (T / p); [exact Hceil'|].
      apply (Qmult_le_r _ _ p Hp). rewrite <- Et. lra. }
    lia.
Qed.

Lemma double_below f e T :
  is_double f → pow2 e < T → T < pow2 (e + 1) → (-1022 <= e)%Z →
  f < T → f <= below e T.
Proof.
  intros Hd Tlo Thi He HT. unfold below.
  pose proof (pow2_pos (e - 52)) as Hp.
  set (p := pow2 (e - 52)) in *.
  assert (Et : T == T / p * p) by (field; lra).
  pose proof (Qle_ceiling (T / p)) as Hceil.
  pose proof (Qceiling_lt (T / p)) as Hceil'.
  destruct (Qlt_le_dec f (pow2 e)) as [Hf|Hf].
  - pose proof (pow2_scaled e 0 ltac:(lia)) as Hs. fold p in Hs.
    rewrite Z.add_0_r in Hs.
    apply Qle_trans with (inject_Z (2 ^ (52 + 0)) * p); [lra|].
    apply Qmult_le_compat_r; [|lra]. rewrite <- Zle_Qle.
    assert (Hlt : (2 ^ (52 + 0) < Qceiling (T / p))%Z).
    { rewrite Zlt_Qlt. apply Qlt_le_trans with (T / p); [|exact Hceil].
      apply (Qmult_lt_r _ _ p Hp). rewrite <- Et. lra. }
    lia.
  - destruct (double_on_grid f e Hd Hf ltac:(lra) He) as [m Hm]. fold p in Hm.
    rewrite Hm. apply Qmult_le_compat_r; [|lra].
    rewrite <- Zle_Qle.
    assert (Hlt : (m < Qceiling (T / p))%Z).
    { rewrite Zlt_Qlt. apply Qlt_le_trans with (T / p); [|exact Hceil].
      apply (Qmult_lt_r _ _ p Hp). rewrite <- Et, <- Hm. exact HT. }
    lia.
Qed.
End Float64_facts.

(** ** CandidateCard.tsx *)

Section CandidateCard_facts.
Import Float64 CandidateCard.

(** [Math.round] is within one half of its argument, halves going up. *)
Lemma Math_round_bounds x :
  x - (1 # 2) < inject_Z (JS.Math_round x) ∧ inject_Z (JS.Math_round x) <= x + (1 # 2).
Proof.
  unfold JS.Math_round. split.
  - pose proof (Qlt_floor (x + (1 # 2))) as H.
    rewrite inject_Z_plus in H. change (inject_Z 1) with 1 in H. lra.
  - apply Qfloor_le.
Qed.

Lemma Math_round_mono x y : x <= y → (JS.Math_round x <= JS.Math_round y)%Z.
Proof. intros H. apply Qfloor_resp_le. lra. Qed.

(** Multiplying and dividing by a positive constant and [Math.round] keep
    the order, and never make a NaN of a number. *)
Lemma positive_constant c : 0 < c → Qeq_bool c 0 = false ∧ Qle_bool 0 c = true.
Proof.
  intros Hc. split.
  - destruct (Qeq_bool c 0) eqn:E; [|reflexivity].
    apply Qeq_bool_eq in E. lra.
  - apply Qle_bool_iff. lra.
Qed.

Lemma mul_not_NaN x c : x ≠ NaN → 0 < c → mul x (Fin c) ≠ NaN.
Proof.
  intros Hx Hc. destruct (positive_constant c Hc) as [Hz Hp].
  destruct x; try contradiction; simpl; rewrite ?Hz, ?Hp; simpl;
    try discriminate.
  apply round_not_NaN.
Qed.

Lemma div_not_NaN x c : x ≠ NaN → 0 < c → div x (Fin c) ≠ NaN.
Proof.
  intros Hx Hc. destruct (positive_constant c Hc) as [Hz Hp].
  destruct x; try contradiction; simpl; rewrite ?Hz, ?Hp; simpl;
    try discriminate.
  apply round_not_NaN.
Qed.

Lemma num_Math_round_not_NaN x : x ≠ NaN → Math_round x ≠ NaN.
Proof. destruct x; simpl; auto; discriminate. Qed.

Lemma mul_mono x y c : 0 < c → le x y → le (mul x (Fin c)) (mul y (Fin c)).
Proof.
  intros Hc H. destruct (positive_constant c Hc) as [Hz Hp].
  destruct x as [a| | |], y as [b| | |]; try discriminate H; simpl;
    rewrite ?Hz, ?Hp; simpl; try reflexivity.
  - apply round_mono. apply num_le_Fin in H. apply Qmult_le_compat_r; lra.
  - apply num_le_PInf, round_not_NaN.
  - apply num_le_NInf, round_not_NaN.
Qed.

Lemma div_mono x y c : 0 < c → le x y → le (div x (Fin c)) (div y (Fin c)).
Proof.
  intros Hc H. destruct (positive_constant c Hc) as [Hz Hp].
  destruct x as [a| | |], y as [b| | |]; try discriminate H; simpl;
    rewrite ?Hz, ?Hp; simpl; try reflexivity.
  - apply round_mono. apply num_le_Fin in H. unfold Qdiv.
    apply Qmult_le_compat_r; [exact H|]. apply Qinv_le_0_compat. lra.
  - apply num_le_PInf, round_not_NaN.
  - apply num_le_NInf, round_not_NaN.
Qed.

Lemma num_Math_round_mono x y : le x y → le (Math_round x) (Math_round y).
Proof.
  intros H.
  destruct x as [a| | |], y as [b| | |]; try discriminate H;
    try reflexivity.
  unfold Math_round. apply num_le_Fin in H. apply num_le_Fin.
  rewrite <- Zle_Qle. apply Math_round_mono, H.
Qed.

Lemma display_mono v w : v <= w → le (display v) (display w).
Proof.
  intros H. unfold display.
  apply div_mono; [reflexivity|]. apply num_Math_round_mono.
  apply mul_mono; [reflexivity|]. apply mul_mono; [reflexivity|].
  apply num_le_Fin, H.
Qed.

Lemma display_not_NaN v : display v ≠ NaN.
Proof.
  unfold display.
  apply div_not_NaN; [|reflexivity]. apply num_Math_round_not_NaN.
  apply mul_not_NaN; [|reflexivity]. apply mul_not_NaN; [|reflexivity].
  discriminate.
Qed.

Lemma display_range v :
  0 <= v <= 10 → le (Fin 0) (display v) ∧ le (display v) (Fin 100).
Proof.
  intros [H0 H10]. split.
  - apply num_le_trans with (display 0); [vm_compute; reflexivity|].
    apply display_mono, H0.
  - apply num_le_trans with (display 10); [apply display_mono, H10|].
    vm_compute. reflexivity.
Qed.

(** The three roundings of [display], one after the other. *)
Lemma display_steps v a b d :
  round (v * 10) = Fin a → round (a * 100) = Fin b →
  round (inject_Z (JS.Math_round b) / 100) = Fin d →
  display v = Fin d.
Proof.
  intros Ha Hb Hd. unfold display. cbn [mul]. rewrite Ha. cbn [mul].
  rewrite Hb. cbn [Math_round div].
  change (Qeq_bool 100 0) with false. cbn iota. exact Hd.
Qed.

Lemma display_near v :
  0 <= v <= 10 →
  ∃ (n : Z) (d : Q),
    display v = round (inject_Z n / 100) ∧ display v = Fin d
    ∧ (0 <= n <= 10000)%Z
    ∧ (0 <= d ∧ d <= 100)
    ∧ v * 10 - ((1 # 200) + pow2 (-43)) <= d
    ∧ d <= v * 10 + ((1 # 200) + pow2 (-43)).
Proof.
  intros [H0 H10].
  assert (P7 : pow2 7 == 128) by reflexivity.
  assert (P14 : pow2 14 == 16384) by reflexivity.
  assert (P8 : pow2 8 == 256) by reflexivity.
  assert (P46 : pow2 (7 - 53) == 1 # 70368744177664) by reflexivity.
  assert (P39 : pow2 (14 - 53) == 1 # 549755813888) by reflexivity.
  assert (P45 : pow2 (8 - 53) == 1 # 35184372088832) by reflexivity.
  assert (P43 : pow2 (-43) == 1 # 8796093022208) by reflexivity.
  destruct (round_near 7 (v * 10) ltac:(lra) ltac:(lra) ltac:(lia))
    as (a & Ea & [A0 A1] & [A2 A3]).
  destruct (round_near 14 (a * 100) ltac:(lra) ltac:(lra) ltac:(lia))
    as (b & Eb & [B0 B1] & [B2 B3]).
  pose proof (Math_round_bounds b) as [N0 N1].
  pose proof (Math_round_mono 0 b B0) as Nz.
  change (JS.Math_round 0) with 0%Z in Nz.
  assert (Nq : 0 <= inject_Z (JS.Math_round b))
    by (rewrite Zle_Qle in Nz; exact Nz).
  set (n := JS.Math_round b) in *.
  assert (Eq100 : inject_Z n / 100 == inject_Z n * (1 # 100)) by reflexivity.
  destruct (round_near 8 (inject_Z n / 100) ltac:(lra) ltac:(lra) ltac:(lia))
    as (d & Ed & [D0 D1] & [D2 D3]).
  pose proof (display_steps v a b d Ea Eb Ed) as Hd.
  destruct (display_range v (conj H0 H10)) as [R0 R1].
  rewrite Hd in R0, R1. apply num_le_Fin in R0, R1.
  assert (Hn : (n <= 10000)%Z).
  { subst n. change 10000%Z with (JS.Math_round (10000 + (1 # 4))).
    apply Math_round_mono. lra. }
  exists n, d. rewrite Hd. split; [symmetry; exact Ed|].
  split; [reflexivity|]. split; [lia|]. split; [split; assumption|].
  split; lra.
Qed.
End CandidateCard_facts.

(** C8.  For a fit score in [0,10] the percentage CandidateCard displays is
    the binary64 value nearest to a whole number of hundredths between 0 and
    100, it lies in [0,100], and it is ten times the fit score rounded to
    two decimal places up to the rounding of binary64 arithmetic: within
    half a hundredth plus 2^-43 of ten times the fit score.  The displayed
    breakdown has the keys of the breakdown, each value under the same
    transformation. *)
Theorem fitScoreDisplay_percentage (candidate : Types.Candidate) :
  let percentage (v : Q) (shown : Float64.number) :=
    0 <= v <= 10 →
    ∃ (n : Z) (d : Q),
      shown = Float64.round (inject_Z n / 100) ∧ shown = Float64.Fin d
      ∧ (0 <= n <= 10000)%Z
      ∧ (0 <= d ∧ d <= 100)
      ∧ v * 10 - ((1 # 200) + Float64.pow2 (-43)) <= d
      ∧ d <= v * 10 + ((1 # 200) + Float64.pow2 (-43)) in
  percentage (Types.fitScore candidate)
    (CandidateCard.fitScoreDisplay candidate)
  ∧ dom (CandidateCard.scoreBreakdownDisplay candidate)
    = dom (Types.scoreBreakdown candidate)
  ∧ (∀ k, CandidateCard.scoreBreakdownDisplay candidate !! k
          = CandidateCard.display <$> Types.scoreBreakdown candidate !! k)
  ∧ (∀ k v, Types.scoreBreakdown candidate !! k = Some v →
       CandidateCard.scoreBreakdownDisplay candidate !! k
       = Some (CandidateCard.display v)
       ∧ percentage v (CandidateCard.display v)).
Proof.
  intros percentage. subst percentage. cbv beta.
  unfold CandidateCard.fitScoreDisplay.
  split; [apply display_near|].
  unfold CandidateCard.scoreBreakdownDisplay.
  split; [apply dom_fmap_L|].
  split; [intros k; apply lookup_fmap|].
  intros k v Hk. rewrite lookup_fmap, Hk.
  split; [reflexivity | apply display_near].
Qed.

(** C8 on Ada, whose fit score is 7.25: the card shows 72.5, within
    [0,100]. *)
Lemma fitScoreDisplay_percentage_sample :
  ∃ (n : Z) (d : Q),
    CandidateCard.fitScoreDisplay (Sample.shown_candidate "1" "Ada" 7.25)
    = Float64.round (inject_Z n / 100)
    ∧ CandidateCard.fitScoreDisplay (Sample.shown_candidate "1" "Ada" 7.25)
      = Float64.Fin d
    ∧ (0 <= n <= 10000)%Z
    ∧ (0 <= d ∧ d <= 100)
    ∧ 7.25 * 10 - ((1 # 200) + Float64.pow2 (-43)) <= d
    ∧ d <= 7.25 * 10 + ((1 # 200) + Float64.pow2 (-43)).
Proof.
  apply (proj1 (fitScoreDisplay_percentage
                  (Sample.shown_candidate "1" "Ada" 7.25))).
  simpl. lra.
Defined.

(** C8, as stated: the fit score written 7.0005 is a binary64 value; ten
    times it, rounded to two decimal places, is 70; the card shows the
    binary64 value of 70.01, which is more than half a hundredth away from
    ten times the fit score and is not a whole number of hundredths. *)
Lemma fitScoreDisplay_not_two_decimals :
  let f := CandidateCard.score_7_0005 in
  let c := Sample.shown_candidate "0" "Eve" f in
  Float64.is_double f
  ∧ CandidateCard.two_decimals (f * 10) == 70
  ∧ ∃ d, CandidateCard.fitScoreDisplay c = Float64.Fin d
         ∧ Float64.round 70.01 = Float64.Fin d
         ∧ ¬ d == CandidateCard.two_decimals (f * 10)
         ∧ f * 10 + (1 # 200) < d
         ∧ ¬ ∃ n : Z, d * 100 == inject_Z n.
Proof.
  cbv zeta. split; [|split].
  - eexists. split; [vm_compute; reflexivity | reflexivity].
  - vm_compute. reflexivity.
  - eexists. split; [vm_compute; reflexivity|].
    split; [vm_compute; reflexivity|].
    split; [intros H; vm_compute in H; discriminate H|].
    split; [vm_compute; reflexivity|].
    intros [n Hn]. unfold Qeq in Hn. simpl in Hn. lia.
Qed.

Example display_samples :
  Float64.eqb (Float64.round 7.0005) (Float64.Fin CandidateCard.score_7_0005)
  = true
  ∧ Float64.eqb (CandidateCard.display 7.25) (Float64.Fin 72.5) = true
  ∧ Float64.eqb (CandidateCard.display 10) (Float64.Fin 100) = true
  ∧ Float64.eqb (CandidateCard.display 8.126953125) (Float64.round 81.27)
    = true
  ∧ Float64.eqb (CandidateCard.display CandidateCard.score_7_0005)
      (Float64.round 70.01) = true.
Proof. repeat split; vm_compute; reflexivity. Qed.

(** The rounding written out in [Float64] and the kernel's binary64
    arithmetic give the same products, quotients and displayed percentages:
    on the fit score written 7.0005, on scores next to the colour
    thresholds, on ties, on subnormal numbers and on overflow. *)
Example kernel_display_agrees :
  forallb Kernel64.agrees
    [0x1.c0083126e978dp+2; 0x1.d666666666666p+2; 0x0p+0; 0x1.4p+3;
     0x1.1ffbe76c8b439p+3; 0x1.1ffbe76c8b43ap+3; 0x1.bffbe76c8b439p+2;
     0x1.bffbe76c8b43ap+2; 0x1.fffbe76c8b439p+2; 0x1.fffbe76c8b43ap+2;
     0x1.1c7a5e353f7cfp+1023; 0x0.0000000000001p-1022; 0x1p-1030;
     0x1.8p+52; 0x1.0624dd2f1a9fcp-10]%float = true
  ∧ forallb Kernel64.agrees
      [-0x1.d99999999999ap+1; -0x1.1c7a5e353f7cfp+1023;
       -0x1.0624dd2f1a9fcp-11]%float = true.
Proof. split; vm_compute; reflexivity. Qed.

Example kernel_operations_agree :
  Kernel64.mul_agrees 0x1.0000000000001p+52 0x1.8p+0 = true
  ∧ Kernel64.mul_agrees 0x1.fffffffffffffp+52 0x1.8p+0 = true
  ∧ Kernel64.mul_agrees 0x0.0000000000001p-1022 0x1p-1 = true
  ∧ Kernel64.mul_agrees 0x0.0000000000001p-1022 0x1.8p+0 = true
  ∧ Kernel64.mul_agrees 0x1.fffffffffffffp+1023 0x1.0000000000001p+0 = true
  ∧ Kernel64.mul_agrees 0x1p-1022 0x1.fffffffffffffp-1 = true
  ∧ Kernel64.div_agrees 0x1.b59p+12 0x1.9p+6 = true
  ∧ Kernel64.div_agrees 0x1p+0 0x1.8p+1 = true
  ∧ Kernel64.div_agrees 0x1p-1022 0x1p+60 = true
  ∧ Kernel64.div_agrees 0x1.fffffffffffffp+1023 0x1p-2 = true.
Proof. repeat split; vm_compute; reflexivity. Qed.

(** ** Fit Scorer *)

Section Scorer_facts.
Import Scorer.

Lemma fit_score_sum breakdown :
  fit_score breakdown ==
    criterion breakdown "education" * 0.20
    + criterion breakdown "career_trajectory" * 0.20
    + criterion breakdown "experience_match" * 0.25
    + criterion breakdown "company_relevance" * 0.15
    + criterion breakdown "location_match" * 0.10
    + criterion breakdown "tenure" * 0.10.
Proof. unfold fit_score, WEIGHTS. simpl. ring. Qed.

Lemma weights_sum : foldr Qplus 0 WEIGHTS.*2 == 1.
Proof. reflexivity. Qed.

Lemma fit_score_range breakdown :
  (∀ k, k ∈ criteria → 0 <= criterion breakdown k <= 10) →
  0 <= fit_score breakdown <= 10.
Proof.
  intros H. rewrite fit_score_sum.
  assert (He := H "education" ltac:(compute; repeat constructor)).
  assert (Hc := H "career_trajectory" ltac:(compute; repeat constructor)).
  assert (Hx := H "experience_match" ltac:(compute; repeat constructor)).
  assert (Hr := H "company_relevance" ltac:(compute; repeat constructor)).
  assert (Hl := H "location_match" ltac:(compute; repeat constructor)).
  assert (Ht := H "tenure" ltac:(compute; repeat constructor)).
  lra.
Qed.

Lemma criterion_range breakdown k :
  (∀ k v, breakdown !! k = Some v → 0 <= v <= 10) →
  0 <= criterion breakdown k <= 10.
Proof.
  intros H. unfold criterion.
  destruct (breakdown !! k) as [v|] eqn:E; simpl; [eauto | lra].
Qed.

Lemma read_criterion_range obj k q :
  read_criterion obj k = Some q → 0 <= q <= 10.
Proof.
  unfold read_criterion, in_range.
  destruct (obj !! k) as [[v|]|]; try discriminate.
  destruct (Qle_bool 0 v) eqn:H0; [|discriminate].
  destruct (Qle_bool v 10) eqn:H10; [|discriminate].
  intros [= <-]. split; apply Qle_bool_iff; assumption.
Qed.

Lemma criteria_set :
  list_to_set criteria
  =@{gset string} {[ "education"; "career_trajectory"; "experience_match";
                     "company_relevance"; "location_match"; "tenure" ]}.
Proof. unfold criteria, WEIGHTS. simpl. set_solver. Qed.

Lemma fallback_well_shaped : well_shaped fallback_breakdown.
Proof.
  split.
  - unfold fallback_breakdown. rewrite dom_list_to_map_L. reflexivity.
  - intros k v. unfold fallback_breakdown, criteria, WEIGHTS. simpl.
    intros Hk. repeat (apply lookup_insert_Some in Hk as [[_ <-]|[_ Hk]];
                       [lra|]).
    rewrite lookup_empty in Hk. discriminate.
Qed.

Lemma parse_breakdown_well_shaped obj breakdown :
  parse_breakdown obj = Some breakdown → well_shaped breakdown.
Proof.
  unfold parse_breakdown, criteria, WEIGHTS. simpl.
  destruct (read_criterion obj "education") as [e|] eqn:He; [|discriminate].
  destruct (read_criterion obj "career_trajectory") as [c|] eqn:Hc;
    [|discriminate].
  destruct (read_criterion obj "experience_match") as [x|] eqn:Hx;
    [|discriminate].
  destruct (read_criterion obj "company_relevance") as [r|] eqn:Hr;
    [|discriminate].
  destruct (read_criterion obj "location_match") as [l|] eqn:Hl;
    [|discriminate].
  destruct (read_criterion obj "tenure") as [t|] eqn:Ht; [|discriminate].
  simpl. intros [= <-].
  apply read_criterion_range in He, Hc, Hx, Hr, Hl, Ht.
  split.
  - rewrite !dom_insert_L, dom_empty_L. reflexivity.
  - intros k v Hk.
    repeat (apply lookup_insert_Some in Hk as [[_ <-]|[_ Hk]];
            [assumption|]).
    rewrite lookup_empty in Hk. discriminate.
Qed.

Lemma evaluate_well_shaped reply : well_shaped (ScoreBreakdown (evaluate reply)).
Proof.
  destruct reply as [| |obj]; simpl; try apply fallback_well_shaped.
  destruct (parse_breakdown obj) eqn:E; simpl;
    [eapply parse_breakdown_well_shaped; eassumption
    | apply fallback_well_shaped].
Qed.

Lemma evaluate_FitScore reply :
  FitScore (evaluate reply) = fit_score (ScoreBreakdown (evaluate reply)).
Proof.
  destruct reply as [| |obj]; simpl; try reflexivity.
  destruct (parse_breakdown obj); reflexivity.
Qed.

Lemma well_shaped_fit_score_range breakdown :
  well_shaped breakdown → 0 <= fit_score breakdown <= 10.
Proof.
  intros [_ H]. apply fit_score_range. intros k _.
  apply criterion_range, H.
Qed.
End Scorer_facts.

(** C1.  The fit score the scorer returns is the weighted sum of the
    breakdown it returns, with weights 0.20, 0.20, 0.25, 0.15, 0.10 and 0.10
    (which add up to 1), and lies in [0,10]; any breakdown whose six values
    lie in [0,10] has its weighted sum in [0,10]; the breakdown 8, 7, 9, 6,
    5, 7 of the scenario gives 1.6 + 1.4 + 2.25 + 0.9 + 0.5 + 0.7 = 7.35. *)
Theorem fit_score_weighted
    (infer : string → Model.CandidateProfile → Scorer.Inference) :
  (∀ job_description candidate,
     let r := Scorer.score infer job_description candidate in
     let b := Scorer.criterion (Scorer.ScoreBreakdown r) in
     Scorer.FitScore r ==
       b "education" * 0.20 + b "career_trajectory" * 0.20
       + b "experience_match" * 0.25 + b "company_relevance" * 0.15
       + b "location_match" * 0.10 + b "tenure" * 0.10
     ∧ 0 <= Scorer.FitScore r <= 10)
  ∧ (∀ breakdown,
       (∀ k, k ∈ Scorer.criteria →
             0 <= Scorer.criterion breakdown k <= 10) →
       0 <= Scorer.fit_score breakdown <= 10)
  ∧ Scorer.fit_score Scorer.scenario_breakdown == 7.35
  ∧ foldr Qplus 0 Scorer.WEIGHTS.*2 == 1.
Proof.
  split; [|split; [apply fit_score_range | split; vm_compute; reflexivity]].
  intros job_description candidate r b. subst r b. unfold Scorer.score.
  rewrite evaluate_FitScore. split; [apply fit_score_sum|].
  apply well_shaped_fit_score_range, evaluate_well_shaped.
Qed.

(** C1 on the breakdown of the scenario, whose six values lie in [0,10]. *)
Lemma fit_score_weighted_sample :
  0 <= Scorer.fit_score Scorer.scenario_breakdown <= 10.
Proof.
  apply (proj1 (proj2 (fit_score_weighted Sample.infer))).
  unfold Scorer.criteria, Scorer.WEIGHTS. simpl. intros k Hk.
  repeat (apply elem_of_cons in Hk as [->|Hk];
          [vm_compute; split; discriminate|]).
  inversion Hk.
Defined.

(** C1, as stated: the scenario's breakdown does not give 7.55. *)
Lemma scenario_fit_score_not_7_55 :
  ¬ Scorer.fit_score Scorer.scenario_breakdown == 7.55.
Proof. vm_compute. discriminate. Qed.

Example fit_score_fallback :
  Scorer.FitScore (Scorer.evaluate Scorer.InferenceFailed) == 5.
Proof. vm_compute. reflexivity. Qed.

Example evaluate_out_of_range :
  Scorer.evaluate
    (Scorer.Parsed
       (list_to_map
          [("education", Scorer.JNumber 8); ("career_trajectory", Scorer.JNumber 7);
           ("experience_match", Scorer.JNumber 11);
           ("company_relevance", Scorer.JNumber 6);
           ("location_match", Scorer.JNumber 5); ("tenure", Scorer.JNumber 7)]))
  = Scorer.with_breakdown Scorer.fallback_breakdown true.
Proof. vm_compute. reflexivity. Qed.

(** ** Pipeline Orchestrator *)

Section Pipeline_facts.
Import Model Orchestrator.
Variable search : string →
  Discoverer.StrategyOutcome * Discoverer.StrategyOutcome
  * Discoverer.StrategyOutcome.
Variable infer : string → CandidateProfile → Scorer.Inference.
Variable compose : string → CandidateProfile → Scorer.ScoreResult → string.
Variable max_results : nat.

Lemma score_and_compose_consistent job_description p :
  consistent (score_and_compose infer compose job_description p).
Proof.
  split; simpl; [apply evaluate_FitScore | apply evaluate_well_shaped].
Qed.

Lemma rank_Permutation results : rank results ≡ₚ results.
Proof. apply Array_sort_Permutation. Qed.

Lemma store_ok_empty : store_ok ∅.
Proof. intros k entry Hk. rewrite lookup_empty in Hk. discriminate. Qed.

Lemma get_store_ok now k store :
  store_ok store →
  store_ok (Cache.get now k store).2
  ∧ ∀ entry, (Cache.get now k store).1 = Some entry →
             Forall consistent (Cache.value entry).
Proof.
  intros Hok. unfold Cache.get.
  destruct (store !! k) as [entry|] eqn:Hk; simpl.
  - destruct (Cache.is_expired now entry); simpl.
    + split; [|discriminate].
      intros k' e' Hk'. apply lookup_delete_Some in Hk' as [_ Hk'].
      eapply Hok, Hk'.
    + split; [exact Hok|]. intros e [= <-]. eapply Hok, Hk.
  - split; [exact Hok | discriminate].
Qed.

Lemma put_store_ok now k v store :
  store_ok store → Forall consistent v → store_ok (Cache.put now k v store).
Proof.
  intros Hok Hv k' e' Hk'. unfold Cache.put in Hk'.
  apply lookup_insert_Some in Hk' as [[_ <-]|[_ Hk']];
    [exact Hv | eapply Hok, Hk'].
Qed.

(** The invariant of the pipeline: a store it alone wrote to stays so, and
    every result it returns, fresh or cached, is consistent. *)
Lemma run_pipeline_consistent store now job_description top_n use_cache :
  store_ok store →
  let out := run_pipeline search infer compose max_results store now
               job_description top_n use_cache in
  store_ok out.2
  ∧ ∀ results, out.1 = inr results → Forall consistent results.
Proof.
  intros Hok out. subst out. unfold run_pipeline.
  assert (Hget : ∃ hit store1,
             (if use_cache then Cache.get now (Cache.key job_description) store
              else (None, store)) = (hit, store1)
             ∧ store_ok store1
             ∧ ∀ entry, hit = Some entry →
                        Forall consistent (Cache.value entry)).
  { destruct use_cache.
    - destruct (get_store_ok now (Cache.key job_description) store Hok)
        as [H1 H2].
      destruct (Cache.get now (Cache.key job_description) store)
        as [hit store1]. eauto.
    - exists None, store. split; [reflexivity|]. split; [exact Hok|discriminate]. }
  destruct Hget as (hit & store1 & -> & Hok1 & Hhit).
  destruct hit as [entry|]; simpl.
  { split; [exact Hok1|]. intros results [= <-]. apply Hhit. reflexivity. }
  destruct (search job_description) as [[s1 s2] s3].
  destruct (Discoverer.discover s1 s2 s3 max_results) as [e|profiles]; simpl.
  { split; [exact Hok1 | discriminate]. }
  assert (Hfresh : Forall consistent
            (take top_n (rank (score_and_compose infer compose job_description
                                 <$> profiles)))).
  { apply Forall_take. rewrite rank_Permutation.
    apply Forall_fmap, Forall_forall. intros p _.
    apply score_and_compose_consistent. }
  split.
  - destruct use_cache; [apply put_store_ok; assumption | exact Hok1].
  - intros results [= <-]. exact Hfresh.
Qed.
End Pipeline_facts.

Lemma fetched_breakdown (results : list Model.RankedResult) cs c :
  Api.fetchCandidates (Orchestrator.respond (inr results)) = inr cs →
  c ∈ cs →
  ∃ r, r ∈ results ∧ Types.scoreBreakdown c = Model.breakdown r
       ∧ Types.fitScore c = JS.or_lit (Some (Model.fit_score r)) 0.
Proof.
  simpl. intros [= <-] Hc.
  apply list_elem_of_lookup in Hc as [i Hi].
  rewrite list_lookup_imap, list_lookup_fmap in Hi.
  destruct (results !! i) as [r|] eqn:Hr; [|discriminate].
  simpl in Hi. injection Hi as <-.
  exists r. split; [eapply list_elem_of_lookup_2, Hr|]. split; reflexivity.
Qed.

(** C2.  On a cache that only the pipeline has written to, every candidate
    that reaches the presentation layer (the pipeline's answer, fresh or
    cached, scored by the back end or by the fallback, read by
    fetchCandidates) has a score breakdown with exactly the six keys
    education, career_trajectory, experience_match, company_relevance,
    location_match and tenure, each mapped to a number in [0,10]; the cache
    the pipeline leaves behind is again one that only it has written to. *)
Theorem breakdown_six_criteria
    (search : string →
       Discoverer.StrategyOutcome * Discoverer.StrategyOutcome
       * Discoverer.StrategyOutcome)
    (infer : string → Model.CandidateProfile → Scorer.Inference)
    (compose : string → Model.CandidateProfile → Scorer.ScoreResult → string)
    (max_results : nat) (store : gmap string Cache.CacheEntry) (now : N)
    (job_description : string) (top_n : nat) (use_cache : bool) :
  Orchestrator.store_ok store →
  let out := Orchestrator.run_pipeline search infer compose max_results store
               now job_description top_n use_cache in
  Orchestrator.store_ok out.2
  ∧ ∀ cs c,
      Api.fetchCandidates (Orchestrator.respond out.1) = inr cs → c ∈ cs →
      dom (Types.scoreBreakdown c)
      = {[ "education"; "career_trajectory"; "experience_match";
           "company_relevance"; "location_match"; "tenure" ]}
      ∧ ∀ k v, Types.scoreBreakdown c !! k = Some v → 0 <= v <= 10.
Proof.
  intros Hok out.
  destruct (run_pipeline_consistent search infer compose max_results store now
              job_description top_n use_cache Hok) as [Hok' Hres].
  fold out in Hok', Hres. split; [exact Hok'|].
  intros cs c Hcs Hc. destruct out.1 as [e|results] eqn:E; [discriminate|].
  destruct (fetched_breakdown results cs c Hcs Hc) as (r & Hr & -> & _).
  specialize (Hres results eq_refl).
  rewrite Forall_forall in Hres. destruct (Hres r Hr) as [_ [Hdom Hrange]].
  split; [|exact Hrange].
  rewrite Hdom. apply criteria_set.
Qed.

(** C2 on a run of the pipeline from the empty cache: the search finds Ada
    and Bob, the back end scores Ada and fails for Bob. *)
Lemma breakdown_six_criteria_sample :
  Orchestrator.store_ok ∅
  ∧ let out := Orchestrator.run_pipeline Sample.search Sample.infer
                 Sample.compose 20 ∅ 0 Sample.job_description 10 true in
    Orchestrator.store_ok out.2
    ∧ ∀ cs c,
        Api.fetchCandidates (Orchestrator.respond out.1) = inr cs → c ∈ cs →
        dom (Types.scoreBreakdown c)
        = {[ "education"; "career_trajectory"; "experience_match";
             "company_relevance"; "location_match"; "tenure" ]}
        ∧ ∀ k v, Types.scoreBreakdown c !! k = Some v → 0 <= v <= 10.
Proof.
  split; [apply store_ok_empty|].
  apply (breakdown_six_criteria Sample.search Sample.infer Sample.compose
           20 ∅ 0%N Sample.job_description 10 true).
  apply store_ok_empty.
Defined.

Example sample_run :
  (λ c, (Types.id c, Types.name c, Types.fitScore c,
         Types.scoreBreakdown c !! "tenure")) <$>
  match Api.fetchCandidates
          (Orchestrator.respond
             (Orchestrator.run_pipeline Sample.search Sample.infer
                Sample.compose 20 ∅ 0 Sample.job_description 10 true).1) with
  | inr cs => cs
  | inl _ => []
  end
  = [("0", "Ada", Scorer.fit_score Scorer.scenario_breakdown, Some 7);
     ("1", "Bob", Scorer.fit_score Scorer.fallback_breakdown, Some 5)].
Proof. vm_compute. reflexivity. Qed.

(** ** Profile Discoverer *)

Section Discoverer_facts.
Import Discoverer.

Lemma dedup_by_url_nil seen ps :
  dedup_by_url seen ps = [] ↔ ∀ p, p ∈ ps → Model.profile_url p ∈ seen.
Proof.
  revert seen. induction ps as [|p ps IH]; intros seen; simpl.
  - split; [intros _ p Hp; inversion Hp | reflexivity].
  - case_bool_decide as Hp.
    + rewrite IH. split.
      * intros H q Hq. apply elem_of_cons in Hq as [->|Hq]; auto.
      * intros H q Hq. apply H. right. exact Hq.
    + split; [discriminate|]. intros H. exfalso. apply Hp, H. left.
Qed.

Lemma dedup_by_url_empty ps : dedup_by_url ∅ ps = [] ↔ ps = [].
Proof.
  rewrite dedup_by_url_nil. split.
  - destruct ps as [|p ps]; [reflexivity|].
    intros H. specialize (H p ltac:(left)). set_solver.
  - intros -> p Hp. inversion Hp.
Qed.


End Discoverer_facts.



(** ** Cache Store *)

Example md5_empty : MD5.hexdigest "" = "d41d8cd98f00b204e9800998ecf8427e".
Proof. vm_compute. reflexivity. Qed.

Example md5_abc : MD5.hexdigest "abc" = "900150983cd24fb0d6963f7d28e17f72".
Proof. vm_compute. reflexivity. Qed.

Example md5_two_blocks :
  MD5.hexdigest
    "12345678901234567890123456789012345678901234567890123456789012345678901234567890"
  = "57edf4a22be3c955ac49da2e2107b67a".
Proof. vm_compute. reflexivity. Qed.

Example normalize_collapses :
  Cache.normalize "  Senior   Python
	 Developer " = "Senior Python Developer".
Proof. vm_compute. reflexivity. Qed.

Lemma hexdigest_length msg : String.length (MD5.hexdigest msg) = 32%nat.
Proof.
  unfold MD5.hexdigest, MD5.digest.
  destruct (MD5.blocks _ _ _) as [[[A B] C] D]. reflexivity.
Qed.

Section Cache_facts.
Import Cache.

Lemma split_words cur s :
  Forall (λ c, is_space c = false) cur →
  Forall is_word (split cur s).
Proof.
  revert cur. induction s as [|c s IH]; intros cur Hcur; simpl.
  - destruct cur as [|a cur]; [constructor|].
    constructor; [|constructor]. split.
    + simpl. intros H. apply app_eq_nil in H as [_ H]. discriminate.
    + apply Forall_rev. exact Hcur.
  - destruct (is_space c) eqn:Hc.
    + destruct cur as [|a cur]; [apply IH; constructor|].
      constructor; [|apply IH; constructor]. split.
      * simpl. intros H. apply app_eq_nil in H as [_ H]. discriminate.
      * apply Forall_rev. exact Hcur.
    + apply IH. constructor; assumption.
Qed.

Lemma split_app_word cur w s :
  Forall (λ c, is_space c = false) w →
  split cur (w ++ s) = split (rev w ++ cur) s.
Proof.
  revert cur. induction w as [|c w IH]; intros cur Hw; simpl; [reflexivity|].
  apply Forall_cons in Hw as [Hc Hw]. rewrite Hc, IH by exact Hw.
  rewrite <- app_assoc. reflexivity.
Qed.

Lemma split_space (cur s : list ascii) :
  split cur (" "%char :: s)
  = match cur with [] => split [] s | _ => rev cur :: split [] s end.
Proof. reflexivity. Qed.

Lemma rev_word (w : list ascii) : w ≠ [] → ∃ c cur, rev w = c :: cur.
Proof.
  intros Hne. destruct (rev w) as [|c cur] eqn:E; [|eauto].
  apply (f_equal (@rev _)) in E. rewrite rev_involutive in E. contradiction.
Qed.

Lemma split_join ws : Forall is_word ws → split [] (join ws) = ws.
Proof.
  induction ws as [|w ws IH]; intros Hws; [reflexivity|].
  apply Forall_cons in Hws as [[Hne Hw] Hws].
  destruct (rev_word w Hne) as (c & cur & E).
  destruct ws as [|w' ws].
  - simpl. rewrite <- (app_nil_r w) at 1.
    rewrite split_app_word by exact Hw. simpl. rewrite app_nil_r, E.
    rewrite <- E, rev_involutive. reflexivity.
  - change (join (w :: w' :: ws)) with (w ++ " "%char :: join (w' :: ws)).
    rewrite split_app_word by exact Hw.
    rewrite app_nil_r, split_space, E, IH by exact Hws.
    rewrite <- E, rev_involutive. reflexivity.
Qed.

Lemma normalize_idemp s : normalize (normalize s) = normalize s.
Proof.
  unfold normalize.
  rewrite String.list_ascii_of_string_of_list_ascii, split_join;
    [reflexivity|].
  apply split_words. constructor.
Qed.

Lemma key_normalize a b : normalize a = normalize b → key a = key b.
Proof. unfold key. intros ->. reflexivity. Qed.
End Cache_facts.

(** C6, as stated: two job descriptions whose normalized texts differ and
    whose cache keys are the same. *)
Lemma cache_key_collision :
  Cache.normalize Cache.text_a ≠ Cache.normalize Cache.text_b
  ∧ Cache.key Cache.text_a = Cache.key Cache.text_b.
Proof.
  split; [intros H; vm_compute in H; discriminate H | vm_compute; reflexivity].
Qed.

(** C6.  Job descriptions whose normalized texts are equal have the same
    cache key; in particular a text and its normalized form do, so texts
    that differ only in leading, trailing or repeated white space share
    their key.  The key is the MD5 digest of the normalized text, 32
    characters long, so a different normalized text gives a different key
    only as far as MD5 has no collision. *)
Theorem cache_key_of_normalized_text :
  (∀ a b, Cache.normalize a = Cache.normalize b → Cache.key a = Cache.key b)
  ∧ (∀ a, Cache.normalize (Cache.normalize a) = Cache.normalize a)
  ∧ (∀ a, Cache.key (Cache.normalize a) = Cache.key a)
  ∧ (∀ a, Cache.key a = MD5.hexdigest (Cache.normalize a)
          ∧ String.length (Cache.key a) = 32%nat)
  ∧ (∀ a b, Cache.key a ≠ Cache.key b →
            Cache.normalize a ≠ Cache.normalize b).
Proof.
  split; [apply key_normalize|].
  split; [apply normalize_idemp|].
  split; [intros a; apply key_normalize, normalize_idemp|].
  split; [intros a; split; [reflexivity | apply hexdigest_length]|].
  intros a b Hk Hn. apply Hk, key_normalize, Hn.
Qed.

(** C6 on a text and the same text with its white space collapsed. *)
Lemma cache_key_of_normalized_text_sample :
  Cache.key "  Senior   Python Developer " = Cache.key "Senior Python Developer".
Proof.
  apply (proj1 cache_key_of_normalized_text). vm_compute. reflexivity.
Defined.

(** * Further properties of the front end *)

(** ** String.prototype.trim *)

Section trim_facts.
Import JobForm.

Lemma head_rev_last {A} (l : list A) : head (rev l) = last l.
Proof.
  induction l as [|x l _] using rev_ind; [reflexivity|].
  rewrite rev_app_distr, last_snoc. reflexivity.
Qed.

Lemma trimStart_clean s : clean_head (trimStart s).
Proof.
  intros c Hc. destruct (trimStart s) as [|a rest] eqn:E; [discriminate|].
  injection Hc as ->. eapply trimStart_head, E.
Qed.

Lemma trimStart_id s : clean_head s → trimStart s = s.
Proof.
  destruct s as [|a s]; [reflexivity|]. intros H. simpl.
  rewrite (H a eq_refl). reflexivity.
Qed.

(** [trimEnd] cuts a run of white space off the end. *)
Lemma trimEnd_prefix s :
  ∃ ws, s = trimEnd s ++ ws ∧ forallb is_white_space ws = true.
Proof.
  destruct (trimStart_suffix (rev s)) as (ws & Hs & Hws).
  exists (rev ws). split.
  - unfold trimEnd. rewrite <- rev_app_distr, <- Hs, rev_involutive. reflexivity.
  - rewrite forallb_forall in *. intros c Hc. apply Hws, in_rev, Hc.
Qed.

Lemma trimEnd_clean_last s : clean_head (rev (trimEnd s)).
Proof. unfold trimEnd. rewrite rev_involutive. apply trimStart_clean. Qed.

Lemma trimEnd_clean_head s : clean_head s → clean_head (trimEnd s).
Proof.
  intros H c Hc. destruct (trimEnd_prefix s) as (ws & Hs & _).
  destruct (trimEnd s) as [|a rest]; [discriminate|].
  injection Hc as ->. apply H. rewrite Hs. reflexivity.
Qed.

Lemma trim_clean_head s : clean_head (trim s).
Proof. apply trimEnd_clean_head, trimStart_clean. Qed.

Lemma trim_clean_last s : clean_head (rev (trim s)).
Proof. apply trimEnd_clean_last. Qed.

Lemma trim_idemp s : trim (trim s) = trim s.
Proof.
  unfold trim at 1. rewrite (trimStart_id (trim s)) by apply trim_clean_head.
  unfold trimEnd. rewrite (trimStart_id (rev (trim s))) by apply trim_clean_last.
  apply rev_involutive.
Qed.

Lemma trim_infix s :
  ∃ ws1 ws2, s = ws1 ++ trim s ++ ws2
             ∧ forallb is_white_space ws1 = true
             ∧ forallb is_white_space ws2 = true.
Proof.
  destruct (trimStart_suffix s) as (ws1 & Hs & H1).
  destruct (trimEnd_prefix (trimStart s)) as (ws2 & Ht & H2).
  exists ws1, ws2. split; [|split; assumption].
  unfold trim. rewrite <- Ht. exact Hs.
Qed.

Lemma trim_length s : (length (trim s) ≤ length s)%nat.
Proof.
  destruct (trim_infix s) as (ws1 & ws2 & Hs & _).
  rewrite Hs at 2. rewrite !length_app. lia.
Qed.

Lemma trimStart_blank s : forallb is_white_space s = true → trimStart s = [].
Proof.
  induction s as [|c s IH]; simpl; [reflexivity|].
  destruct (is_white_space c); [exact IH | discriminate].
Qed.

Lemma trim_blank s : forallb is_white_space s = true → trim s = [].
Proof. intros H. unfold trim. rewrite trimStart_blank by exact H. reflexivity. Qed.
End trim_facts.

(** X1.  [trim] removes a run of white space from each end and nothing
    else: the text is white space, then the trimmed text, then white space;
    the trimmed text neither starts nor ends with white space, and trimming
    it again changes nothing. *)
Theorem trim_removes_outer_white_space (s : JobForm.text) :
  (∃ ws1 ws2, s = ws1 ++ JobForm.trim s ++ ws2
              ∧ forallb JobForm.is_white_space ws1 = true
              ∧ forallb JobForm.is_white_space ws2 = true)
  ∧ (∀ c, head (JobForm.trim s) = Some c → JobForm.is_white_space c = false)
  ∧ (∀ c, last (JobForm.trim s) = Some c → JobForm.is_white_space c = false)
  ∧ JobForm.trim (JobForm.trim s) = JobForm.trim s.
Proof.
  split; [apply trim_infix|]. split; [apply trim_clean_head|].
  split; [|apply trim_idemp].
  intros c Hc. apply (trim_clean_last s). rewrite head_rev_last. exact Hc.
Qed.

(** X2.  A job description made of white space only is rejected whatever
    its length: onSubmit is not called and the too-short message is set. *)
Theorem handleSubmit_blank (st : JobForm.State) :
  forallb JobForm.is_white_space (JobForm.jobDescription st) = true →
  JobForm.handleSubmit st
  = (JobForm.setError
       "Job description must be at least 100 characters long." st, []).
Proof.
  intros H. apply handleSubmit_short. rewrite trim_blank by exact H.
  simpl. lia.
Qed.

(** X2 on 3000 blanks, tabs and line feeds. *)
Lemma handleSubmit_blank_sample :
  (JobForm.handleSubmit
     {| JobForm.jobDescription :=
          replicate 1000 0x20%N ++ replicate 1000 0x09%N
          ++ replicate 1000 0x0A%N;
        JobForm.error := ""; JobForm.charCount := 3000 |}).2 = [].
Proof.
  rewrite handleSubmit_blank; [reflexivity|]. vm_compute. reflexivity.
Defined.

(** ** JobForm: the form as the user can drive it *)

(** X3.  When the text holds at most 2000 code units (the textarea's
    maxLength) and the submit button is enabled, a submit is accepted:
    onSubmit is called once with the trimmed text and no error is set. *)
Theorem handleSubmit_enabled_button (isLoading : bool) (st : JobForm.State) :
  (length (JobForm.jobDescription st) ≤ 2000)%nat →
  JobForm.submitDisabled isLoading st = false →
  JobForm.handleSubmit st = (st, [JobForm.trim (JobForm.jobDescription st)]).
Proof.
  intros Hmax Hen. unfold JobForm.submitDisabled in Hen.
  apply orb_false_iff in Hen as [_ Hen]. apply Nat.ltb_ge in Hen.
  apply handleSubmit_accepted.
  pose proof (trim_length (JobForm.jobDescription st)). lia.
Qed.

(** X3 on 100 letters between blanks. *)
Lemma handleSubmit_enabled_button_sample :
  JobForm.handleSubmit Sample.form_filled
  = (Sample.form_filled, [replicate 100 0x61%N]).
Proof.
  apply (handleSubmit_enabled_button false Sample.form_filled).
  - vm_compute. lia.
  - vm_compute. reflexivity.
Defined.

Section JobForm_run_facts.
Import JobForm.

Lemma handleSubmit_counted st :
  counted st → counted (handleSubmit st).1.
Proof.
  unfold handleSubmit, counted.
  destruct (_ <? 100)%nat; [intros H; exact H|].
  destruct (2000 <? _)%nat; intros H; exact H.
Qed.

Lemma handleSubmit_calls st : Forall acceptable (handleSubmit st).2.
Proof.
  unfold handleSubmit.
  destruct (Nat.ltb_spec (length (trim (jobDescription st))) 100);
    [constructor|].
  destruct (Nat.ltb_spec 2000 (length (trim (jobDescription st))));
    [constructor|].
  constructor; [|constructor].
  split; [split; assumption | apply trim_idemp].
Qed.

Lemma dispatch_counted ev st :
  counted st → counted (dispatch ev st).1 ∧ Forall acceptable (dispatch ev st).2.
Proof.
  intros H. destruct ev as [value|]; simpl.
  - split; [reflexivity | constructor].
  - split; [apply handleSubmit_counted, H | apply handleSubmit_calls].
Qed.

Lemma run_counted events st :
  counted st → counted (run events st).1 ∧ Forall acceptable (run events st).2.
Proof.
  revert st. induction events as [|ev events IH]; intros st H; simpl.
  - split; [exact H | constructor].
  - destruct (dispatch_counted ev st H) as [H1 Hc1].
    destruct (dispatch ev st) as [st1 calls1]. simpl in H1, Hc1.
    destruct (IH st1 H1) as [H2 Hc2].
    destruct (run events st1) as [st2 calls2]. simpl in *.
    split; [exact H2 | apply Forall_app; split; assumption].
Qed.
End JobForm_run_facts.

(** X4.  However the user types and submits, starting from the empty form:
    the character counter equals the length of the text, and every text
    handed to onSubmit is already trimmed and holds between 100 and 2000
    code units. *)
Theorem form_run_invariant (events : list JobForm.Event) :
  JobForm.charCount (JobForm.run events JobForm.initial).1
  = length (JobForm.jobDescription (JobForm.run events JobForm.initial).1)
  ∧ Forall (λ jd, (100 ≤ length jd ≤ 2000)%nat ∧ JobForm.trim jd = jd)
      (JobForm.run events JobForm.initial).2.
Proof. apply run_counted. reflexivity. Qed.

Example form_run_sample :
  (JobForm.run
     [JobForm.Submit; JobForm.Change (replicate 99 0x61%N); JobForm.Submit;
      JobForm.Change (0x20%N :: replicate 100 0x61%N); JobForm.Submit]
     JobForm.initial).2
  = [replicate 100 0x61%N].
Proof. vm_compute. reflexivity. Qed.

(** ** api.ts: what fetchCandidates keeps of the answer *)

Section fetch_facts.
Import Api.

Lemma imap_Forall2 {A B} (f : nat → A → B) (l : list A) :
  Forall2 (λ a b, ∃ i, b = f i a) l (imap f l).
Proof.
  revert f. induction l as [|a l IH]; intros f; simpl; constructor.
  - exists 0%nat. reflexivity.
  - eapply Forall2_impl; [apply IH|]. intros a' b [i ->]. eauto.
Qed.

Lemma fetchCandidates_Forall2 data :
  ∃ cs, fetchCandidates (Resolved data) = inr cs
        ∧ Forall2 (λ item c, ∃ i, c = toCandidate i item)
            (default [] (top_candidates data)) cs.
Proof.
  eexists. split; [reflexivity|].
  replace (JS.or_lit (top_candidates data) [])
    with (default [] (top_candidates data))
    by (destruct (top_candidates data); reflexivity).
  apply imap_Forall2.
Qed.

Lemma or_lit_string (a : option string) : JS.or_lit a "" = default "" a.
Proof. destruct a as [[|c s]|]; reflexivity. Qed.

Lemma or_lit_number (a : option Q) : JS.or_lit a 0 == default 0 a.
Proof.
  destruct a as [q|]; simpl; [|reflexivity].
  unfold JS.truthy, JS.truthy_number.
  destruct (Qeq_bool q 0) eqn:E; simpl; [|reflexivity].
  apply Qeq_bool_iff in E. symmetry. exact E.
Qed.

Lemma or_lit_object {V} (a : option (gmap string V)) :
  JS.or_lit a ∅ = default ∅ a.
Proof. destruct a; reflexivity. Qed.

Lemma or_prop_string_first (a b : option string) u :
  a = Some u → u ≠ "" → JS.or_lit (JS.or_prop a b) "" = u.
Proof. intros -> Hu. destruct u; [contradiction | reflexivity]. Qed.

Lemma or_prop_string_second (a b : option string) :
  a = None ∨ a = Some "" → JS.or_lit (JS.or_prop a b) "" = default "" b.
Proof. intros [-> | ->]; simpl; apply or_lit_string. Qed.
End fetch_facts.

(** X5.  The defaults of fetchCandidates never change a value the back end
    sent: each candidate's name, title, fit score and score breakdown are
    the element's name, headline, fit_score and score_breakdown whenever
    these are present, an empty string or a zero included. *)
Theorem fetchCandidates_keeps_values (data : Api.ResponseData) :
  ∃ cs, Api.fetchCandidates (Api.Resolved data) = inr cs
    ∧ Forall2
        (λ item c,
           Types.name c = default "" (Api.name item)
           ∧ Types.title c = default "" (Api.headline item)
           ∧ Types.fitScore c == default 0 (Api.fit_score item)
           ∧ Types.scoreBreakdown c = default ∅ (Api.score_breakdown item))
        (default [] (Api.top_candidates data)) cs.
Proof.
  destruct (fetchCandidates_Forall2 data) as (cs & Hcs & Hall).
  exists cs. split; [exact Hcs|].
  eapply Forall2_impl; [exact Hall|]. intros item c [i ->]. simpl.
  split; [apply or_lit_string|]. split; [apply or_lit_string|].
  split; [apply or_lit_number | apply or_lit_object].
Qed.

(** X6.  For the profile link, linkedin_url wins when it is a non-empty
    string, and otherwise url is used (the empty string when that is missing
    too); likewise outreach_message wins over message. *)
Theorem fetchCandidates_precedence (data : Api.ResponseData) :
  ∃ cs, Api.fetchCandidates (Api.Resolved data) = inr cs
    ∧ Forall2
        (λ item c,
           (∀ u, Api.linkedin_url item = Some u → u ≠ "" →
                 Types.linkedinUrl c = u)
           ∧ (Api.linkedin_url item = None ∨ Api.linkedin_url item = Some "" →
              Types.linkedinUrl c = default "" (Api.url item))
           ∧ (∀ m, Api.outreach_message item = Some m → m ≠ "" →
                   Types.outreachMessage c = m)
           ∧ (Api.outreach_message item = None
              ∨ Api.outreach_message item = Some "" →
              Types.outreachMessage c = default "" (Api.message item)))
        (default [] (Api.top_candidates data)) cs.
Proof.
  destruct (fetchCandidates_Forall2 data) as (cs & Hcs & Hall).
  exists cs. split; [exact Hcs|].
  eapply Forall2_impl; [exact Hall|]. intros item c [i ->]. simpl.
  split; [intros u; apply or_prop_string_first|].
  split; [apply or_prop_string_second|].
  split; [intros m; apply or_prop_string_first | apply or_prop_string_second].
Qed.

Example fetchCandidates_url_fallback :
  Types.linkedinUrl
    (Api.toCandidate 0
       {| Api.name := Some "Ada"; Api.headline := None;
          Api.linkedin_url := Some ""; Api.url := Some "https://x/in/ada";
          Api.fit_score := Some 0; Api.score_breakdown := None;
          Api.outreach_message := None; Api.message := Some "Hello" |})
  = "https://x/in/ada".
Proof. reflexivity. Qed.

(** ** api.ts: the avatar URL *)

Section encode_facts.
Import JS.

Lemma hex_upper_code n :
  (n < 16)%nat →
  nat_of_ascii (hex_upper n) = if (n <? 10)%nat then (48 + n)%nat else (55 + n)%nat.
Proof.
  intros H. unfold hex_upper.
  destruct (n <? 10)%nat; apply nat_ascii_embedding; lia.
Qed.

Lemma hex_upper_inj a b :
  (a < 16)%nat → (b < 16)%nat → hex_upper a = hex_upper b → a = b.
Proof.
  intros Ha Hb E. apply (f_equal nat_of_ascii) in E.
  rewrite !hex_upper_code in E by assumption.
  destruct (Nat.ltb_spec a 10), (Nat.ltb_spec b 10); lia.
Qed.

Lemma hex_upper_unreserved n : (n < 16)%nat → unreserved (hex_upper n) = true.
Proof.
  intros H. do 16 (destruct n as [|n]; [reflexivity|]). lia.
Qed.

Lemma percent_reserved : unreserved "%" = false.
Proof. reflexivity. Qed.

Lemma byte_split c :
  (nat_of_ascii c / 16 < 16)%nat ∧ (nat_of_ascii c mod 16 < 16)%nat.
Proof.
  pose proof (nat_ascii_bounded c). split.
  - apply Nat.Div0.div_lt_upper_bound. lia.
  - apply Nat.mod_upper_bound. lia.
Qed.

Lemma byte_of_digits c d :
  (nat_of_ascii c / 16 = nat_of_ascii d / 16)%nat →
  (nat_of_ascii c mod 16 = nat_of_ascii d mod 16)%nat → c = d.
Proof.
  intros Hq Hr.
  rewrite <- (ascii_nat_embedding c), <- (ascii_nat_embedding d).
  f_equal.
  rewrite (Nat.div_mod_eq (nat_of_ascii c) 16), (Nat.div_mod_eq (nat_of_ascii d) 16).
  congruence.
Qed.

Lemma encodeURIComponent_inj s t :
  encodeURIComponent s = encodeURIComponent t → s = t.
Proof.
  revert t. induction s as [|c s IH]; intros [|d t]; simpl.
  - reflexivity.
  - destruct (unreserved d); discriminate.
  - destruct (unreserved c); discriminate.
  - destruct (byte_split c) as [Hc1 Hc2], (byte_split d) as [Hd1 Hd2].
    destruct (unreserved c) eqn:Uc, (unreserved d) eqn:Ud.
    + intros [= -> E]. f_equal. apply IH, E.
    + intros [= -> _]. rewrite percent_reserved in Uc. discriminate.
    + intros [= <- _]. rewrite percent_reserved in Ud. discriminate.
    + intros [= E1 E2 E]. f_equal; [|apply IH, E].
      apply byte_of_digits; apply hex_upper_inj; assumption.
Qed.

Lemma encodeURIComponent_safe s :
  Forall (λ c, unreserved c = true ∨ c = "%"%char)
    (String.list_ascii_of_string (encodeURIComponent s)).
Proof.
  induction s as [|c s IH]; simpl; [constructor|].
  destruct (unreserved c) eqn:Uc; simpl.
  - constructor; [left; exact Uc | exact IH].
  - destruct (byte_split c) as [H1 H2].
    repeat (constructor; [first [right; reflexivity
                                | left; apply hex_upper_unreserved; assumption]|]).
    exact IH.
Qed.


End encode_facts.

(** X7.  encodeURIComponent writes only unreserved characters and percent
    signs, each percent sign being followed by two hexadecimal digits of a
    byte, and it loses nothing: two different strings have different
    encodings. *)
Theorem encodeURIComponent_safe_and_injective :
  (∀ s, Forall (λ c, JS.unreserved c = true ∨ c = "%"%char)
          (String.list_ascii_of_string (JS.encodeURIComponent s)))
  ∧ (∀ s t, JS.encodeURIComponent s = JS.encodeURIComponent t → s = t)
  ∧ (∀ c s, JS.unreserved c = false →
       JS.encodeURIComponent (String c s)
       = String "%" (String (JS.hex_upper (nat_of_ascii c / 16))
                       (String (JS.hex_upper (nat_of_ascii c mod 16))
                          (JS.encodeURIComponent s))))
  ∧ (∀ c s, JS.unreserved c = true →
       JS.encodeURIComponent (String c s) = String c (JS.encodeURIComponent s)).
Proof.
  split; [apply encodeURIComponent_safe|].
  split; [apply encodeURIComponent_inj|].
  split; intros c s H; simpl; rewrite H; reflexivity.
Qed.

Example encodeURIComponent_sample :
  JS.encodeURIComponent "Ada Lovelace & Co/é~" = "Ada%20Lovelace%20%26%20Co%2F%C3%A9~".
Proof. vm_compute. reflexivity. Qed.


(** ** ResultsDisplay: keys, name ordering, counts *)

Section shown_facts.
Import ResultsDisplay.

Lemma NoDup_fmap_filter {A B} (f : A → B) (P : A → bool) l :
  NoDup (f <$> l) → NoDup (f <$> List.filter P l).
Proof.
  induction l as [|x l IH]; simpl; [auto|].
  rewrite NoDup_cons. intros [Hx Hl].
  destruct (P x); simpl; [|auto].
  apply NoDup_cons. split; [|auto].
  intros Hin. apply Hx.
  apply list_elem_of_fmap in Hin as (y & -> & Hy).
  apply list_elem_of_fmap. exists y. split; [reflexivity|].
  apply list_elem_of_In, filter_In in Hy as [Hy _].
  apply list_elem_of_In, Hy.
Qed.

(** Sorting with a comparator that is total and transitive. *)
Section consistent.
Context {A : Type} (cmp : A → A → Q).
Hypothesis cmp_total : ∀ x y, 0 < cmp x y → cmp y x <= 0.
Hypothesis cmp_trans : ∀ x y z, cmp x y <= 0 → cmp y z <= 0 → cmp x z <= 0.

Lemma cmp_refl x : cmp x x <= 0.
Proof.
  destruct (Qlt_le_dec 0 (cmp x x)) as [H|H]; [apply cmp_total, H | exact H].
Qed.

Lemma insert_sorted_by x l :
  StronglySorted (λ a b, cmp a b <= 0) l →
  StronglySorted (λ a b, cmp a b <= 0) (insert cmp x l).
Proof.
  induction l as [|y l IH]; simpl; intros Hl.
  - repeat constructor.
  - apply StronglySorted_inv in Hl as [Hl Hy].
    destruct (Qle_bool (cmp x y) 0) eqn:Hxy.
    + apply Qle_bool_iff in Hxy.
      constructor; [constructor; assumption|].
      constructor; [exact Hxy|].
      eapply Forall_impl; [exact Hy|]. intros z Hz. simpl in Hz.
      eapply cmp_trans; eassumption.
    + assert (Hyx : cmp y x <= 0).
      { apply cmp_total, Qnot_le_lt. intros Hle.
        apply Qle_bool_iff in Hle. congruence. }
      constructor; [apply IH; exact Hl|].
      rewrite insert_Permutation. constructor; assumption.
  Qed.

Lemma Array_sort_sorted_by l :
  StronglySorted (λ a b, cmp a b <= 0) (Array_sort cmp l).
Proof.
  induction l as [|x l IH]; simpl; [constructor | apply insert_sorted_by, IH].
Qed.
End consistent.
End shown_facts.

(** X9.  Whatever the back end answers and whatever ordering and threshold
    are selected, the React keys of the cards shown (the candidates' ids)
    are pairwise distinct. *)
Theorem shown_keys_distinct
    (localeCompare : string → string → Q) (data : Api.ResponseData)
    (st : App.State) (sortBy : ResultsDisplay.SortBy) (t : Q) :
  NoDup (Types.id <$>
           ResultsDisplay.filteredAndSortedCandidates localeCompare
             (App.candidates (App.handleJobSubmit (Api.Resolved data) st))
             sortBy t).
Proof.
  rewrite shown_Permutation. apply NoDup_fmap_filter. simpl.
  apply ids_NoDup.
Qed.

(** X10.  Sorted by name with a localeCompare that is a consistent
    comparator (total and transitive), the cards are in ascending order of
    name, and candidates with the same name keep the order in which they
    came in. *)
Theorem shown_by_name
    (localeCompare : string → string → Q)
    (candidates : list Types.Candidate) (t : Q) :
  (∀ a b, 0 < localeCompare a b → localeCompare b a <= 0) →
  (∀ a b c, localeCompare a b <= 0 → localeCompare b c <= 0 →
            localeCompare a c <= 0) →
  let shown :=
    ResultsDisplay.filteredAndSortedCandidates localeCompare candidates
      ResultsDisplay.name t in
  StronglySorted
    (λ a b, localeCompare (Types.name a) (Types.name b) <= 0) shown
  ∧ ∀ n, List.filter (λ c, bool_decide (Types.name c = n)) shown
         = List.filter (λ c, bool_decide (Types.name c = n))
             (List.filter (λ c, Qle_bool t (Types.fitScore c)) candidates).
Proof.
  intros Htot Htrans shown. subst shown.
  unfold ResultsDisplay.filteredAndSortedCandidates. split.
  - apply (Array_sort_sorted_by (ResultsDisplay.comparator localeCompare
                                   ResultsDisplay.name)); simpl; eauto.
  - intros n. apply Array_sort_filter. intros x y Hx Hy. simpl.
    apply bool_decide_eq_true in Hx, Hy. rewrite Hx, Hy.
    apply Qle_bool_iff, (cmp_refl localeCompare Htot).
Qed.

Lemma byLength_total a b :
  0 < Sample.byLength a b → Sample.byLength b a <= 0.
Proof.
  unfold Sample.byLength. rewrite <- (Zlt_Qlt 0), <- (Zle_Qle _ 0). lia.
Qed.

Lemma byLength_trans a b c :
  Sample.byLength a b <= 0 → Sample.byLength b c <= 0 →
  Sample.byLength a c <= 0.
Proof.
  unfold Sample.byLength. rewrite <- !(Zle_Qle _ 0). lia.
Qed.

(** X10 on the four candidates, names compared by length: Cy, then Bob,
    Ada and Dee in their incoming order. *)
Lemma shown_by_name_sample :
  StronglySorted
    (λ a b, Sample.byLength (Types.name a) (Types.name b) <= 0)
    (ResultsDisplay.filteredAndSortedCandidates Sample.byLength
       Sample.candidates ResultsDisplay.name 0)
  ∧ Types.name <$> ResultsDisplay.filteredAndSortedCandidates Sample.byLength
                     Sample.candidates ResultsDisplay.name 0
    = ["Cy"; "Bob"; "Ada"; "Dee"].
Proof.
  split; [|reflexivity].
  apply (shown_by_name Sample.byLength Sample.candidates 0
           byLength_total byLength_trans).
Defined.

Section count_facts.
Variable localeCompare : string → string → Q.

Lemma filter_all {A} (P : A → bool) l :
  (∀ x, In x l → P x = true) → List.filter P l = l.
Proof.
  induction l as [|x l IH]; simpl; intros H; [reflexivity|].
  rewrite (H x) by (left; reflexivity). f_equal. apply IH.
  intros y Hy. apply H. right. exact Hy.
Qed.

Lemma shown_length candidates sortBy t :
  length (ResultsDisplay.filteredAndSortedCandidates localeCompare candidates
            sortBy t)
  = length (List.filter (λ c, Qle_bool t (Types.fitScore c)) candidates).
Proof. apply Permutation_length, shown_Permutation. Qed.
End count_facts.

(** X11.  The number in the heading is the number of candidates whose fit
    score reaches the threshold, never more than were received; the
    no-match notice (length 0) appears exactly when no candidate reaches the
    threshold; and when every candidate reaches it, all of them are
    shown. *)
Theorem shown_count
    (localeCompare : string → string → Q)
    (candidates : list Types.Candidate) (sortBy : ResultsDisplay.SortBy)
    (t : Q) :
  let shown :=
    ResultsDisplay.filteredAndSortedCandidates localeCompare candidates
      sortBy t in
  length shown
  = length (List.filter (λ c, Qle_bool t (Types.fitScore c)) candidates)
  ∧ (length shown ≤ length candidates)%nat
  ∧ (length shown = 0%nat ↔ ∀ c, c ∈ candidates → Types.fitScore c < t)
  ∧ ((∀ c, c ∈ candidates → t <= Types.fitScore c) →
     length shown = length candidates).
Proof.
  intros shown. subst shown. rewrite shown_length.
  split; [reflexivity|]. split; [apply filter_length_le|]. split.
  - rewrite length_zero_iff_nil. split.
    + intros E c Hc. apply Qnot_le_lt. intros Hle.
      assert (Hin : In c (List.filter (λ c, Qle_bool t (Types.fitScore c))
                            candidates)).
      { apply filter_In. split; [apply list_elem_of_In, Hc|].
        apply Qle_bool_iff, Hle. }
      rewrite E in Hin. destruct Hin.
    + intros H.
      destruct (List.filter _ candidates) as [|c l] eqn:E; [reflexivity|].
      assert (Hin : In c (List.filter (λ c, Qle_bool t (Types.fitScore c))
                            candidates)) by (rewrite E; left; reflexivity).
      apply filter_In in Hin as [Hin Hle]. apply Qle_bool_iff in Hle.
      apply list_elem_of_In, H in Hin. lra.
  - intros H. rewrite filter_all; [reflexivity|].
    intros c Hc. apply Qle_bool_iff, H, list_elem_of_In, Hc.
Qed.

(** X11 on the four candidates: all four under "All", none under 70. *)
Lemma shown_count_sample :
  length (ResultsDisplay.filteredAndSortedCandidates (λ _ _, 0)
            Sample.candidates ResultsDisplay.score 0) = 4%nat
  ∧ length (ResultsDisplay.filteredAndSortedCandidates (λ _ _, 0)
              Sample.candidates ResultsDisplay.score 70) = 0%nat.
Proof.
  split.
  - apply (shown_count (λ _ _, 0) Sample.candidates ResultsDisplay.score 0).
    intros c Hc. apply sample_in_range, Hc.
  - apply (shown_count (λ _ _, 0) Sample.candidates ResultsDisplay.score 70).
    intros c Hc. apply sample_in_range in Hc. lra.
Defined.

(** ** CandidateCard: percentages and colours *)

Section card_facts.
Import Float64 CandidateCard.

Lemma StronglySorted_impl {A} (R S : A → A → Prop) l :
  (∀ a b, R a b → S a b) → StronglySorted R l → StronglySorted S l.
Proof.
  intros HRS. induction 1 as [|x l Hl IH Hx]; constructor; [exact IH|].
  eapply Forall_impl; [exact Hx|]. auto.
Qed.

(** A threshold [k] of the colours is reached by every binary64 score from
    [T] up as soon as it is reached by the least binary64 value from [T]
    up, and missed by every binary64 score below [T] as soon as it is missed
    by the greatest binary64 value below [T]. *)
Lemma band_reached (k : Q) (e : Z) (T f : Q) :
  is_double f → pow2 e <= T → T < pow2 (e + 1) → (-1022 <= e)%Z →
  leb (Fin k) (display (above e T)) = true →
  T <= f → leb (Fin k) (display f) = true.
Proof.
  intros Hd Hlo Hhi He Hk HT.
  apply num_le_trans with (display (above e T)); [exact Hk|].
  apply display_mono, double_above; assumption.
Qed.

Lemma band_missed (k : Q) (e : Z) (T f : Q) :
  is_double f → pow2 e < T → T < pow2 (e + 1) → (-1022 <= e)%Z →
  leb (Fin k) (display (below e T)) = false →
  f < T → leb (Fin k) (display f) = false.
Proof.
  intros Hd Hlo Hhi He Hk HT.
  destruct (leb (Fin k) (display f)) eqn:E; [|reflexivity].
  rewrite <- Hk. symmetry.
  apply num_le_trans with (display f); [exact E|].
  apply display_mono, double_below; assumption.
Qed.

Ltac band_side :=
  first [lia | vm_compute; reflexivity | vm_compute; discriminate].

Lemma band_90 f :
  is_double f →
  (8.9995 <= f → leb (Fin 90) (display f) = true)
  ∧ (f < 8.9995 → leb (Fin 90) (display f) = false).
Proof.
  intros Hd. split.
  - apply (band_reached 90 3 8.9995 f Hd); band_side.
  - apply (band_missed 90 3 8.9995 f Hd); band_side.
Qed.

Lemma band_80 f :
  is_double f →
  (7.9995 <= f → leb (Fin 80) (display f) = true)
  ∧ (f < 7.9995 → leb (Fin 80) (display f) = false).
Proof.
  intros Hd. split.
  - apply (band_reached 80 2 7.9995 f Hd); band_side.
  - apply (band_missed 80 2 7.9995 f Hd); band_side.
Qed.

Lemma band_70 f :
  is_double f →
  (6.9995 <= f → leb (Fin 70) (display f) = true)
  ∧ (f < 6.9995 → leb (Fin 70) (display f) = false).
Proof.
  intros Hd. split.
  - apply (band_reached 70 2 6.9995 f Hd); band_side.
  - apply (band_missed 70 2 6.9995 f Hd); band_side.
Qed.
End card_facts.

(** X12.  In the score ordering the percentages on the cards never
    increase from one card to the next: rounding for display does not
    invert the ranking. *)
Theorem shown_percentages_descending
    (localeCompare : string → string → Q)
    (candidates : list Types.Candidate) (t : Q) :
  StronglySorted
    (λ a b, Float64.le (CandidateCard.fitScoreDisplay b)
              (CandidateCard.fitScoreDisplay a))
    (ResultsDisplay.filteredAndSortedCandidates localeCompare candidates
       ResultsDisplay.score t).
Proof.
  eapply StronglySorted_impl;
    [|apply (Array_sort_sorted Types.fitScore)].
  intros a b. apply display_mono.
Qed.

(** X13.  The colour of a card follows the raw fit score, a binary64
    number: green from 8.9995 up, blue from 7.9995, yellow from 6.9995, red
    below; and the badge, the percentage text and the bar are always of the
    same colour. *)
Theorem card_colour_bands (candidate : Types.Candidate)
    (Hdouble : Float64.is_double (Types.fitScore candidate)) :
  let f := Types.fitScore candidate in
  let shown := CandidateCard.fitScoreDisplay candidate in
  (8.9995 <= f →
     CandidateCard.getScoreColor shown = "text-green-600 bg-green-100"
     ∧ CandidateCard.getScoreBarColor shown = "bg-green-500")
  ∧ (7.9995 <= f → f < 8.9995 →
     CandidateCard.getScoreColor shown = "text-blue-600 bg-blue-100"
     ∧ CandidateCard.getScoreBarColor shown = "bg-blue-500")
  ∧ (6.9995 <= f → f < 7.9995 →
     CandidateCard.getScoreColor shown = "text-yellow-600 bg-yellow-100"
     ∧ CandidateCard.getScoreBarColor shown = "bg-yellow-500")
  ∧ (f < 6.9995 →
     CandidateCard.getScoreColor shown = "text-red-600 bg-red-100"
     ∧ CandidateCard.getScoreBarColor shown = "bg-red-500").
Proof.
  intros f shown. subst f shown.
  unfold CandidateCard.fitScoreDisplay, CandidateCard.getScoreColor,
    CandidateCard.getScoreBarColor.
  set (f := Types.fitScore candidate) in *.
  destruct (band_90 f Hdouble) as [G9 L9], (band_80 f Hdouble) as [G8 L8],
    (band_70 f Hdouble) as [G7 L7].
  split; [|split; [|split]].
  - intros H. rewrite (G9 H). split; reflexivity.
  - intros H1 H2. rewrite (L9 H2), (G8 H1). split; reflexivity.
  - intros H1 H2. rewrite (L9 ltac:(lra)), (L8 H2), (G7 H1).
    split; reflexivity.
  - intros H. rewrite (L9 ltac:(lra)), (L8 ltac:(lra)), (L7 H).
    split; reflexivity.
Qed.

(** X13 on a candidate of fit score 9: green. *)
Lemma card_colour_bands_sample :
  CandidateCard.getScoreColor
    (CandidateCard.fitScoreDisplay (Sample.shown_candidate "1" "Ada" 9))
  = "text-green-600 bg-green-100"
  ∧ CandidateCard.getScoreBarColor
      (CandidateCard.fitScoreDisplay (Sample.shown_candidate "1" "Ada" 9))
    = "bg-green-500".
Proof.
  refine (proj1 (card_colour_bands (Sample.shown_candidate "1" "Ada" 9) _) _).
  - eexists. split; vm_compute; reflexivity.
  - simpl. lra.
Defined.

(** The binary64 scores next to 8.9995, on either side of it, and a low
    score. *)
Example card_colour_sample :
  Float64.below 3 8.9995 < 8.9995 ∧ 8.9995 < Float64.above 3 8.9995
  ∧ Float64.is_double (Float64.below 3 8.9995)
  ∧ Float64.is_double (Float64.above 3 8.9995)
  ∧ CandidateCard.getScoreColor
      (CandidateCard.display (Float64.above 3 8.9995))
    = "text-green-600 bg-green-100"
  ∧ CandidateCard.getScoreColor
      (CandidateCard.display (Float64.below 3 8.9995))
    = "text-blue-600 bg-blue-100"
  ∧ CandidateCard.getScoreBarColor (CandidateCard.display 5) = "bg-red-500".
Proof.
  split; [vm_compute; reflexivity|]. split; [vm_compute; reflexivity|].
  split; [eexists; split; vm_compute; reflexivity|].
  split; [eexists; split; vm_compute; reflexivity|].
  split; [vm_compute; reflexivity|]. split; vm_compute; reflexivity.
Qed.

(** ** App.tsx *)

Section App_facts.
Import App.

Lemma handleJobSubmit_settled res st : settled (handleJobSubmit res st).
Proof.
  unfold handleJobSubmit, settled. destruct res as [detail|data]; simpl.
  - split; [reflexivity|]. split; [discriminate|]. split; [reflexivity|].
    intros e [= <-]. destruct detail as [[|c d]|]; discriminate.
  - split; [reflexivity|]. split; [reflexivity|].
    split; discriminate.
Qed.

Lemma handleBackToForm_settled st : settled st → settled (handleBackToForm st).
Proof.
  intros (Hl & _). unfold handleBackToForm, settled. simpl.
  split; [exact Hl|]. split; [discriminate|]. split; [reflexivity|discriminate].
Qed.

Lemma act_settled a st : settled st → settled (act a st).
Proof.
  destruct a; simpl;
    [intros _; apply handleJobSubmit_settled | apply handleBackToForm_settled].
Qed.

Lemma run_settled actions st : settled st → settled (run actions st).
Proof.
  revert st. unfold run.
  induction actions as [|a actions IH]; intros st H; simpl; [exact H|].
  apply IH, act_settled, H.
Qed.

Lemma initial_settled : settled initial.
Proof.
  unfold settled, initial. simpl.
  split; [reflexivity|]. split; [discriminate|]. split; [reflexivity|discriminate].
Qed.

Lemma run_snoc actions a st : run (actions ++ [a]) st = act a (run actions st).
Proof. unfold run. rewrite foldl_app. reflexivity. Qed.
End App_facts.

(** X14.  Whatever the user does from the start (submits followed to the
    end of their request, returns to the form), no spinner is left on, the
    form and the results are never on screen together and one of them is,
    candidates are held only while results are shown, an error that is set
    is a non-empty message, and the error banner never accompanies
    results. *)
Theorem app_run_invariant (actions : list App.Action) :
  let st := App.run actions App.initial in
  App.isLoading st = false
  ∧ App.showsForm st = negb (App.showsResults st)
  ∧ (App.showResults st = false → App.candidates st = [])
  ∧ (∀ e, App.error st = Some e → e ≠ "")
  ∧ (App.showsResults st = true → App.showsError st = false).
Proof.
  intros st.
  destruct (run_settled actions App.initial initial_settled)
    as (Hl & Hr & Hc & He).
  fold st in Hl, Hr, Hc, He.
  unfold App.showsForm, App.showsResults, App.showsError.
  rewrite Hl, orb_false_r.
  split; [reflexivity|]. split; [reflexivity|]. split; [exact Hc|].
  split; [exact He|].
  intros H. rewrite (Hr H). reflexivity.
Qed.

(** X15.  Returning to the form after any sequence of actions puts the app
    back in its initial state. *)
Theorem back_to_form_resets (actions : list App.Action) :
  App.run (actions ++ [App.BackToForm]) App.initial = App.initial.
Proof.
  rewrite run_snoc. unfold App.act, App.handleBackToForm.
  destruct (run_settled actions App.initial initial_settled) as (Hl & _).
  rewrite Hl. reflexivity.
Qed.

(** X16.  A rejected request ends with the form on screen, no results, and
    an error banner whose message is the response's detail, or "Something
    went wrong." when the detail is missing or empty; a resolved request
    ends with the results on screen, the form hidden, no error, and the
    candidates fetchCandidates made of the answer. *)
Theorem handleJobSubmit_outcome (st : App.State) :
  (∀ detail,
     let st' := App.handleJobSubmit (Api.Rejected detail) st in
     App.showsForm st' = true ∧ App.showsResults st' = false
     ∧ App.showsError st' = true
     ∧ (∀ d, detail = Some d → d ≠ "" → App.error st' = Some d)
     ∧ (detail = None ∨ detail = Some "" →
        App.error st' = Some "Something went wrong."))
  ∧ (∀ data,
       let st' := App.handleJobSubmit (Api.Resolved data) st in
       App.showsForm st' = false ∧ App.showsResults st' = true
       ∧ App.showsError st' = false
       ∧ Api.fetchCandidates (Api.Resolved data) = inr (App.candidates st')).
Proof.
  split.
  - intros detail st'. subst st'.
    unfold App.showsForm, App.showsResults, App.showsError. simpl.
    split; [reflexivity|]. split; [reflexivity|]. split; [|split].
    + destruct detail as [[|c d]|]; reflexivity.
    + intros d -> Hd. destruct d; [contradiction | reflexivity].
    + intros [-> | ->]; reflexivity.
  - intros data st'. subst st'.
    split; [reflexivity|]. split; [reflexivity|]. split; reflexivity.
Qed.

(** ** JobForm: the error message *)

Section JobForm_error_facts.
Import JobForm.

Lemma handleChange_error value st : error (handleChange value st) = "".
Proof. unfold handleChange. simpl. destruct (error st); reflexivity. Qed.

Lemma dispatch_error_matches ev st :
  error_matches st → error_matches (dispatch ev st).1.
Proof.
  intros H. destruct ev as [value|]; simpl.
  - left. apply handleChange_error.
  - unfold handleSubmit.
    destruct (Nat.ltb_spec (length (trim (jobDescription st))) 100) as [Hs|Hs].
    { right. left. split; [reflexivity | exact Hs]. }
    destruct (Nat.ltb_spec 2000 (length (trim (jobDescription st)))) as [Hl|Hl].
    { right. right. split; [reflexivity | exact Hl]. }
    simpl. destruct H as [H | [[_ H] | [_ H]]]; [left; exact H | lia | lia].
Qed.

Lemma run_error_matches events st :
  error_matches st → error_matches (run events st).1.
Proof.
  revert st. induction events as [|ev events IH]; intros st H; simpl;
    [exact H|].
  pose proof (dispatch_error_matches ev st H) as H1.
  destruct (dispatch ev st) as [st1 calls1]. simpl in H1.
  specialize (IH st1 H1). destruct (run events st1) as [st2 calls2].
  exact IH.
Qed.
End JobForm_error_facts.

(** X17.  However the user types and submits, starting from the empty form,
    the error message of the form is empty, or it is the too-short message
    and the trimmed text holds fewer than 100 code units, or it is the
    too-long message and the trimmed text holds more than 2000; typing
    always clears it. *)
Theorem form_error_matches_text (events : list JobForm.Event) :
  let st := (JobForm.run events JobForm.initial).1 in
  let n := length (JobForm.trim (JobForm.jobDescription st)) in
  (JobForm.error st = ""
   ∨ (JobForm.error st
      = "Job description must be at least 100 characters long."
      ∧ (n < 100)%nat)
   ∨ (JobForm.error st = "Job description must not exceed 2000 characters."
      ∧ (2000 < n)%nat))
  ∧ ∀ value, JobForm.error (JobForm.handleChange value st) = "".
Proof.
  intros st n. subst st n. split.
  - apply run_error_matches. left. reflexivity.
  - intros value. apply handleChange_error.
Qed.
